(** * interactive-ai-cherry-blossom: gesture debouncer, layouts and progress

    A shallow embedding of the positional and state-machine core of the
    repository:

    - [components/GestureController.tsx]: the per-frame gesture classifier
      and debouncer ([predictWebcam], [detectGesture]), the mode-sync
      effect, the photo spread layout ([getUnleashSpreadPositions]) and
      the Mulberry32 hash ([pseudoRandom]);
    - [components/Polaroids.tsx]: its own copy of [pseudoRandom];
    - [components/Foliage.tsx]: the dual-position generator and the
      per-frame progress update.

    Numbers.  A JavaScript number that only ever holds an integer (frame
    counters, loop indices, hash seeds) is a [Z] or a [nat]; the 32-bit
    operators are written out with their wrap-around.  A JavaScript number
    that holds a coordinate, an angle or a blend factor is a real number
    ([R]): the rounding of IEEE doubles and of [Float32Array] stores is not
    modelled.  Integer sums are exact, as they are in doubles up to a
    magnitude of 2^53; what is proved of the value of the hash, beyond
    its range, is proved for seeds within that bound. *)

(** The second half of the file goes on to the code around that core:
    the hand position and the landmark reads of [detectGesture]; the hash
    against Mulberry32 on unsigned words; the photo layout, the closest
    photo and the move of a photo of [components/Polaroids.tsx]; the
    hand-driven camera of [components/Experience.tsx]; the blend of the
    vertex shader and the extent of the cloud of
    [components/Foliage.tsx]; the star field; and, of the petals, the
    weighted pick, the soft boundary and the frame position.  Left out is
    what lives in the browser or in three.js: camera and model set-up,
    the marks drawn on the canvas (the landmark reads of the drawing are
    kept), textures, quaternions, materials and the JSX scene;
    and the Gaussian sampler of the petals, whose rejection loops need
    not end. *)

From Stdlib Require Import ZArith Reals Lra Lia List Bool.
From Stdlib Require Strings.String.
From stdpp Require Import base list.

Local Open Scope Z_scope.

(** ** JavaScript 32-bit integer operators *)

Module JS.

(** [ToUint32] and [ToInt32] of ECMA-262, on an integral number. *)
Definition ToUint32 (x : Z) : Z := x mod 2 ^ 32.
Definition ToInt32 (x : Z) : Z := (x + 2 ^ 31) mod 2 ^ 32 - 2 ^ 31.

(** [a ^ b] *)
Definition xor (a b : Z) : Z := Z.lxor (ToInt32 a) (ToInt32 b).
(** [a | b] *)
Definition bor (a b : Z) : Z := Z.lor (ToInt32 a) (ToInt32 b).
(** [a >>> n], for a shift count [0 <= n < 32] *)
Definition ushr (a n : Z) : Z := Z.shiftr (ToUint32 a) n.
(** [Math.imul(a, b)] *)
Definition imul (a b : Z) : Z := ToInt32 (ToInt32 a * ToInt32 b).

(** [a > b] on numbers *)
Definition gtb (a b : R) : bool := if Rgt_dec a b then true else false.

(** [Math.hypot(a, b)] *)
Definition hypot (a b : R) : R := sqrt (a * a + b * b)%R.

End JS.

(** ** The mode enum of [types.ts] *)

Inductive TreeMode : Set := CHAOS | FORMED.

Definition TreeMode_eqb (a b : TreeMode) : bool :=
  match a, b with
  | CHAOS, CHAOS | FORMED, FORMED => true
  | _, _ => false
  end.

(** An object with number fields [x], [y], [z]: a MediaPipe landmark, or a
    position returned by a layout function. *)
Record Vec3 : Type := { x : R; y : R; z : R }.

(** ** components/Polaroids.tsx *)

Module Polaroids.

(** The 32-bit word that [pseudoRandom] divides by 2^32.  The first sum
    is the integer sum: it is what JavaScript computes when the seed and
    the sum are of magnitude at most 2^53, where doubles add integers
    exactly (the second sum is of two 32-bit integers).  Statements that
    depend on the word, and not only on its being a 32-bit word, are made
    for such seeds. *)
Definition pseudoRandom_word (seed : Z) : Z :=
  let t := seed + 0x6D2B79F5 in
  let t := JS.imul (JS.xor t (JS.ushr t 15)) (JS.bor t 1) in
  let t := JS.xor t (t + JS.imul (JS.xor t (JS.ushr t 7)) (JS.bor t 61)) in
  JS.ushr (JS.xor t (JS.ushr t 14)) 0.

Definition pseudoRandom (seed : Z) : R :=
  (IZR (pseudoRandom_word seed) / 4294967296)%R.

End Polaroids.

(** ** components/GestureController.tsx *)

Module GestureController.

(** *** [pseudoRandom]

    [var t = seed += 0x6D2B79F5] updates the parameter, which is local to
    the call; [>>>] binds tighter than [^], so [t ^ t >>> 15] is
    [t ^ (t >>> 15)].  The sum is the integer sum, which is what the
    double addition yields when the seed and the sum are of magnitude at
    most 2^53. *)
Definition pseudoRandom_word (seed : Z) : Z :=
  let seed := seed + 0x6D2B79F5 in
  let t := seed in
  let t := JS.imul (JS.xor t (JS.ushr t 15)) (JS.bor t 1) in
  let t := JS.xor t (t + JS.imul (JS.xor t (JS.ushr t 7)) (JS.bor t 61)) in
  JS.ushr (JS.xor t (JS.ushr t 14)) 0.

Definition pseudoRandom (seed : Z) : R :=
  (IZR (pseudoRandom_word seed) / 4294967296)%R.

(** A MediaPipe landmark; [detectGesture] reads only [x] and [y]. *)
Abbreviation Landmark := Vec3 (only parsing).

(** *** Component state: the three refs and the [currentMode] prop of the
    last render. *)
Record Controller : Type := {
  openFrames : Z;
  closedFrames : Z;
  lastModeRef : TreeMode;
  currentMode : TreeMode
}.

Definition CONFIDENCE_THRESHOLD : Z := 5.

(** Mounting: [useRef(0)] twice and [useRef(currentMode)]. *)
Definition mount (mode : TreeMode) : Controller :=
  {| openFrames := 0; closedFrames := 0;
     lastModeRef := mode; currentMode := mode |}.

(** The calls of [onModeChange] made while handling one frame, oldest
    first. *)
Definition Events : Type := list TreeMode.

(** *** [detectGesture] *)

(** The finger test of the loop body and of the thumb: the tip is further
    from the wrist than [ratio] times the base, in the image plane. *)
Definition fingerExtended (wrist tip base : Landmark) (ratio : R) : bool :=
  let distTip := JS.hypot (x tip - x wrist) (y tip - y wrist) in
  let distBase := JS.hypot (x base - x wrist) (y base - y wrist) in
  JS.gtb distTip (distBase * ratio)%R.

Definition fingerTips : list nat := [8; 12; 16; 20]%nat.
Definition fingerBases : list nat := [5; 9; 13; 17]%nat.

(** The [for] loop over the four fingers, from finger [i] on.  Reading a
    landmark that is not there gives [undefined], whose [.x] throws: the
    result is then [None]. *)
Fixpoint fingerLoop (landmarks : list Landmark) (wrist : Landmark)
    (fingers : list (nat * nat)) (extendedFingers : Z) : option Z :=
  match fingers with
  | [] => Some extendedFingers
  | (t, b) :: fingers =>
      tip ← landmarks !! t;
      base ← landmarks !! b;
      fingerLoop landmarks wrist fingers
        (if fingerExtended wrist tip base 1.5
         then extendedFingers + 1 else extendedFingers)
  end.

(** [extendedFingers] once the loop and the thumb test are done; the
    palm centre is computed first and reads landmarks 0, 5, 9, 13, 17. *)
Definition countExtended (landmarks : list Landmark) : option Z :=
  wrist ← landmarks !! 0%nat;
  _ ← landmarks !! 5%nat; _ ← landmarks !! 9%nat;
  _ ← landmarks !! 13%nat; _ ← landmarks !! 17%nat;
  extendedFingers ← fingerLoop landmarks wrist (zip fingerTips fingerBases) 0;
  thumbTip ← landmarks !! 4%nat;
  thumbBase ← landmarks !! 2%nat;
  Some (if fingerExtended wrist thumbTip thumbBase 1.2
        then extendedFingers + 1 else extendedFingers).

(** The three arms of the [if / else if / else] on [extendedFingers]. *)
Inductive Gesture : Set := OPEN | CLOSED | AMBIGUOUS.

Definition gestureOf (extendedFingers : Z) : Gesture :=
  if 4 <=? extendedFingers then OPEN
  else if extendedFingers <=? 1 then CLOSED
  else AMBIGUOUS.

Definition commitGesture (g : Gesture) (c : Controller) : Controller * Events :=
  match g with
  | OPEN =>
      let c := {| openFrames := openFrames c + 1; closedFrames := 0;
                  lastModeRef := lastModeRef c; currentMode := currentMode c |} in
      if CONFIDENCE_THRESHOLD <? openFrames c then
        if negb (TreeMode_eqb (lastModeRef c) CHAOS) then
          ({| openFrames := openFrames c; closedFrames := closedFrames c;
              lastModeRef := CHAOS; currentMode := currentMode c |}, [CHAOS])
        else (c, [])
      else (c, [])
  | CLOSED =>
      let c := {| openFrames := 0; closedFrames := closedFrames c + 1;
                  lastModeRef := lastModeRef c; currentMode := currentMode c |} in
      if CONFIDENCE_THRESHOLD <? closedFrames c then
        if negb (TreeMode_eqb (lastModeRef c) FORMED) then
          ({| openFrames := openFrames c; closedFrames := closedFrames c;
              lastModeRef := FORMED; currentMode := currentMode c |}, [FORMED])
        else (c, [])
      else (c, [])
  | AMBIGUOUS =>
      ({| openFrames := 0; closedFrames := 0;
          lastModeRef := lastModeRef c; currentMode := currentMode c |}, [])
  end.

Definition detectGesture (landmarks : list Landmark) (c : Controller)
  : option (Controller * Events) :=
  extendedFingers ← countExtended landmarks;
  Some (commitGesture (gestureOf extendedFingers) c).

(** *** [predictWebcam]

    One frame on which the detector ran (the landmarker is loaded and the
    video has a width).  [hands] is [result.landmarks] ([None] when the
    field is absent); the first hand is classified, and a frame without a
    hand decays both counters. *)
Definition noHand (c : Controller) : Controller * Events :=
  ({| openFrames := Z.max 0 (openFrames c - 1);
      closedFrames := Z.max 0 (closedFrames c - 1);
      lastModeRef := lastModeRef c; currentMode := currentMode c |}, []).

Definition predictWebcam (hands : option (list (list Landmark))) (c : Controller)
  : option (Controller * Events) :=
  match hands with
  | Some (landmarks :: _) => detectGesture landmarks c
  | Some [] | None => Some (noHand c)
  end.

(** The animation-frame loop over successive detector results: each call
    of [predictWebcam] asks for the next one, and a call that throws does
    not.  The events of all frames, oldest first. *)
Fixpoint webcam (frames : list (option (list (list Landmark))))
    (c : Controller) : option (Controller * Events) :=
  match frames with
  | [] => Some (c, [])
  | hands :: frames =>
      '(c1, e1) ← predictWebcam hands c;
      '(c2, e2) ← webcam frames c1;
      Some (c2, e1 ++ e2)
  end.

(** *** The classification stream

    What one frame amounts to for the debouncer: a hand whose finger
    count selected one of the three arms, or no hand. *)
Inductive Classification : Set := Hand (g : Gesture) | NONE.

Definition frameStep (cl : Classification) (c : Controller)
  : Controller * Events :=
  match cl with
  | Hand g => commitGesture g c
  | NONE => noHand c
  end.

(** The classification of a frame whose landmarks can all be read. *)
Definition classifyFrame (hands : option (list (list Landmark)))
  : option Classification :=
  match hands with
  | Some (landmarks :: _) =>
      extendedFingers ← countExtended landmarks;
      Some (Hand (gestureOf extendedFingers))
  | Some [] | None => Some NONE
  end.

(** Successive frames; the events of all frames, oldest first. *)
Fixpoint feed (cls : list Classification) (c : Controller)
  : Controller * Events :=
  match cls with
  | [] => (c, [])
  | cl :: cls =>
      let '(c1, e1) := frameStep cl c in
      let '(c2, e2) := feed cls c1 in
      (c2, e1 ++ e2)
  end.

(** *** The mode-sync effect

    [useEffect(() => { lastModeRef.current = currentMode }, [currentMode])]:
    a render of the component with prop [mode] runs the effect when
    [mode] is not the prop of the previous render. *)
Definition render (mode : TreeMode) (c : Controller) : Controller :=
  if TreeMode_eqb mode (currentMode c) then c
  else {| openFrames := openFrames c; closedFrames := closedFrames c;
          lastModeRef := mode; currentMode := mode |}.

(** *** [getUnleashSpreadPositions] *)

Record SpreadOpts : Type := {
  radiusBase : option R;
  radiusMax : option R;
  radialJitter : option R;
  verticalJitter : option R;
  easing : option R
}.

(** [opts?.field ?? dflt] *)
Definition optOr (opts : option SpreadOpts) (field : SpreadOpts -> option R)
    (dflt : R) : R :=
  default dflt (opts ≫= field).

(** The raw angle of entry [i], before the jitter. *)
Definition spreadTheta (count i : nat) : R :=
  (INR i / INR count * PI * 2)%R.

(** The object pushed by iteration [i]. *)
Definition spreadEntry (count : nat) (opts : option SpreadOpts) (i : nat)
  : Vec3 :=
  let radiusBase := optOr opts radiusBase 7 in
  let radiusMax := optOr opts radiusMax 12 in
  let angleJitter := optOr opts radialJitter 0.28 in
  let verticalJitter := optOr opts verticalJitter 2.3 in
  let easing := optOr opts easing 1 in
  let theta := spreadTheta count i in
  let thetaJitter :=
    (pseudoRandom (Z.of_nat i + 1) * angleJitter - angleJitter / 2)%R in
  let angle := (theta + thetaJitter)%R in
  let radialRand :=
    (pseudoRandom (Z.of_nat i + 77) * (radiusMax - radiusBase))%R in
  let radius := ((radiusBase + radialRand) * easing)%R in
  let yOffset :=
    ((pseudoRandom (Z.of_nat i + 113) - 0.5) * 2 * verticalJitter * easing)%R in
  {| x := (cos angle * radius)%R; y := yOffset; z := (sin angle * radius)%R |}.

(** [for (let i = 0; i < count; i++) arr.push(...)], from index [i] with
    [todo] iterations left. *)
Fixpoint spreadLoop (count : nat) (opts : option SpreadOpts)
    (todo i : nat) (arr : list Vec3) : list Vec3 :=
  match todo with
  | O => arr
  | S todo => spreadLoop count opts todo (S i) (arr ++ [spreadEntry count opts i])
  end.

Definition getUnleashSpreadPositions (count : nat) (opts : option SpreadOpts)
  : list Vec3 :=
  spreadLoop count opts count 0%nat [].

End GestureController.

(** ** three.js *)

Module Three.

(** [MathUtils.lerp(x, y, t)] is [(1 - t) * x + t * y]. *)
Definition lerp (x y t : R) : R := ((1 - t) * x + t * y)%R.

End Three.

(** ** components/Foliage.tsx *)

Module Foliage.

Local Open Scope R_scope.

(** *** [Math.random()] and the generator's effects

    The engine's random source is a stream of draws and a cursor; a call
    returns the draw under the cursor and moves the cursor on.  A
    computation also fails ([None]) when it divides by zero: JavaScript
    would go on with [Infinity] or [NaN], and the failure is what lets
    the absence of such a division be stated. *)
Record Random : Type := { draws : nat -> R; cursor : nat }.

Definition M (A : Type) : Type := Random -> option (A * Random).

Definition ret {A : Type} (a : A) : M A := fun g => Some (a, g).

Definition bind {A B : Type} (m : M A) (k : A -> M B) : M B :=
  fun g => match m g with
           | Some (a, g') => k a g'
           | None => None
           end.

Notation "'let*' v ':=' m 'in' k" := (bind m (fun v => k))
  (at level 10, v name, m at level 100, k at level 200).

Definition Math_random : M R :=
  fun g => Some (draws g (cursor g),
                 {| draws := draws g; cursor := S (cursor g) |}).

Definition div (a b : R) : M R :=
  fun g => if Req_dec_T b 0 then None else Some (a / b, g).

(** [Math.pow(b, e)], for a positive base. *)
Definition Math_pow (b e : R) : R := Rpower b e.

(** *** The dual-position generator (the [useMemo] of [Foliage]) *)

Record Buffers : Type := {
  chaos : list R;
  target : list R;
  rnd : list R
}.

Definition height : R := 12.
Definition maxRadius : R := 5.

(** The body of the [for] loop at index [i]. *)
Definition particle (count : nat) (goldenRatio : R) (i : nat) (b : Buffers)
  : M Buffers :=
  let* d := Math_random in
  let r := 55 * d in
  let* d := Math_random in
  let theta := d * 2 * PI in
  let* d := Math_random in
  let phi := acos (2 * d - 1) in
  let* d := Math_random in
  let verticalBias := (d - 0.5) * 20 in
  let chaos := <[(i * 3)%nat := r * sin phi * cos theta * 1.8]> (chaos b) in
  let chaos :=
    <[(i * 3 + 1)%nat := r * sin phi * sin theta + 8 + verticalBias]> chaos in
  let chaos := <[(i * 3 + 2)%nat := r * cos phi * 1.3]> chaos in
  let* u := div (INR i + 0.5) (INR count) in
  let r01 := Math_pow u 0.45 in
  let diskR := maxRadius * 3 * r01 in
  let bulge := (1 - r01) * (1 - r01) in
  let thetaG := 2 * PI * goldenRatio * INR i in
  let arms := 3 in
  let twist := diskR * 0.45 in
  let thetaSpiral := thetaG + arms * twist in
  let baseY := height * 0.95 + 1.0 in
  let thicknessCenter := 2.0 in
  let thicknessEdge := 0.4 in
  let edgeDrop := -0.35 * (r01 * r01) in
  let localThickness :=
    thicknessEdge + (thicknessCenter - thicknessEdge) * bulge in
  let* d := Math_random in
  let verticalVariation := (d - 0.5) * localThickness * 1.2 in
  let y := baseY + edgeDrop + verticalVariation in
  let* d := Math_random in
  let jitter := (d - 0.5) * 0.20 in
  let rr := diskR * (1 + jitter) in
  let target := <[(i * 3)%nat := cos thetaSpiral * rr]> (target b) in
  let target := <[(i * 3 + 1)%nat := y]> target in
  let target := <[(i * 3 + 2)%nat := sin thetaSpiral * rr]> target in
  let* d := Math_random in
  let rnd := <[i := d]> (rnd b) in
  ret {| chaos := chaos; target := target; rnd := rnd |}.

(** [for (let i = 0; i < count; i++) body], from index [i] with [todo]
    iterations left. *)
Fixpoint forLoop (body : nat -> Buffers -> M Buffers) (todo i : nat)
    (b : Buffers) : M Buffers :=
  match todo with
  | O => ret b
  | S todo => let* b' := body i b in forLoop body todo (S i) b'
  end.

(** The three [Float32Array]s start zero-filled. *)
Definition generate (count : nat) : M Buffers :=
  let chaos := replicate (count * 3) 0 in
  let target := replicate (count * 3) 0 in
  let rnd := replicate count 0 in
  let* goldenRatio := div (1 + sqrt 5) 2 in
  forLoop (particle count goldenRatio) count 0%nat
    {| chaos := chaos; target := target; rnd := rnd |}.

(** The radial distance, in the XZ plane, of particle [i] of a position
    array; [0] stands for an index outside the array. *)
Definition radialAt (positions : list R) (i : nat) : R :=
  let px := default 0 (positions !! (i * 3)%nat) in
  let pz := default 0 (positions !! (i * 3 + 2)%nat) in
  sqrt (px * px + pz * pz).

(** *** The progress update (the [useFrame] callback), with the points
    mounted *)

Definition useFrame (mode : TreeMode) (delta : R) (progress : R) : R :=
  let target := if TreeMode_eqb mode FORMED then 1 else 0 in
  Three.lerp progress target (delta * 1.5).

(** The progress after each of a run of frames, oldest first. *)
Fixpoint progressTrace (mode : TreeMode) (deltas : list R) (progress : R)
  : list R :=
  match deltas with
  | [] => []
  | delta :: deltas =>
      let progress := useFrame mode delta progress in
      progress :: progressTrace mode deltas progress
  end.

(** The progress once the whole run is done. *)
Definition progressAfter (mode : TreeMode) (deltas : list R) (progress : R)
  : R :=
  List.last (progressTrace mode deltas progress) progress.

(** The cumulative [deltaTime] of a run. *)
Definition elapsed (deltas : list R) : R := foldr Rplus 0 deltas.

End Foliage.

(** ** Vocabulary of the statements *)

Module Spec.

Import GestureController.

(** Both counters are non-negative and at most one of them is not zero. *)
Definition countersOk (c : Controller) : Prop :=
  0 <= openFrames c /\ 0 <= closedFrames c /\
  (openFrames c = 0 \/ closedFrames c = 0).

(** The mode a classification asks for, if any. *)
Definition impliedMode (cl : Classification) : option TreeMode :=
  match cl with
  | Hand OPEN => Some CHAOS
  | Hand CLOSED => Some FORMED
  | Hand AMBIGUOUS | NONE => None
  end.

(** Distance between two landmarks in the image plane. *)
Definition distance (a b : Vec3) : R :=
  sqrt ((x a - x b) * (x a - x b) + (y a - y b) * (y a - y b))%R.

(** The finger whose tip and base are landmarks [tip] and [base] is
    extended for [ratio]: its tip is further from the wrist (landmark 0)
    than [ratio] times its base. *)
Definition extended (ratio : R) (landmarks : list Landmark) (tip base : nat)
  : Prop :=
  exists w t b,
    landmarks !! 0%nat = Some w /\ landmarks !! tip = Some t /\
    landmarks !! base = Some b /\
    (distance t w > ratio * distance b w)%R.

(** Distance of a position from the vertical axis, in the XZ plane. *)
Definition radialXZ (p : Vec3) : R := sqrt (x p * x p + z p * z p)%R.

(** What is asked of the spread layout for [count] items and [opts]: as
    many entries as items; each entry at a radial distance between
    [radiusBase] and [radiusMax], both scaled by [easing]; and raw angles
    that differ from entry to entry. *)
Definition spreadLayoutOk (count : nat) (opts : option SpreadOpts) : Prop :=
  let radiusBase := optOr opts radiusBase 7 in
  let radiusMax := optOr opts radiusMax 12 in
  let easing := optOr opts easing 1 in
  let arr := getUnleashSpreadPositions count opts in
  length arr = count /\
  (forall p, p ∈ arr ->
     (radiusBase * easing <= radialXZ p <= radiusMax * easing)%R) /\
  (forall i j, (i < count)%nat -> (j < count)%nat -> i <> j ->
     spreadTheta count i <> spreadTheta count j).

(** Frame after frame, the values of [trace] come no further from
    [target] than the value before them, [start] being the first. *)
Fixpoint approaches (target start : R) (trace : list R) : Prop :=
  match trace with
  | [] => True
  | p :: trace =>
      (Rabs (target - p) <= Rabs (target - start))%R /\
      approaches target p trace
  end.

(** What is asked of the progress of a subsystem that starts at 0 while
    the mode is FORMED, over a run of frames: it stays between 0 and 1 on
    every frame, never moves away from 1, and is within 0.01 of 1 once
    [settle] seconds have passed. *)
Definition progressOk (settle : R) (deltas : list R) : Prop :=
  let trace := Foliage.progressTrace FORMED deltas 0 in
  Forall (fun p => 0 <= p <= 1)%R trace /\
  approaches 1 0 trace /\
  ((settle <= Foliage.elapsed deltas)%R ->
   (Rabs (1 - Foliage.progressAfter FORMED deltas 0) <= 0.01)%R).

(** The quantities the loop body of the generator computes for the target
    position of particle [i], read off the body: the disk radius, the
    jittered radius for the draw [d], and the spiral angle. *)
Definition diskR (count i : nat) : R :=
  (Foliage.maxRadius * 3 * Foliage.Math_pow ((INR i + 0.5) / INR count) 0.45)%R.

Definition rr (count i : nat) (d : R) : R :=
  (diskR count i * (1 + (d - 0.5) * 0.20))%R.

Definition thetaSpiral (count : nat) (goldenRatio : R) (i : nat) : R :=
  (2 * PI * goldenRatio * INR i + 3 * (diskR count i * 0.45))%R.

(** The generator returns for [count] particles, and its target for
    particle 0 lies strictly nearer the axis than its target for particle
    [count - 1]. *)
Definition coreBias (count : nat) (g : Foliage.Random) : Prop :=
  exists b g',
    Foliage.generate count g = Some (b, g') /\
    (Foliage.radialAt (Foliage.target b) 0
     < Foliage.radialAt (Foliage.target b) (count - 1))%R.

End Spec.

(** ** Sample inputs *)

Module Samples.

Definition at_x (a : R) : Vec3 := {| x := a; y := 0%R; z := 0%R |}.

(** A hand along the x axis: wrist at 0, every base joint (and every
    landmark that is not read) at 1, every tip at 2. *)
Definition openHand : list Vec3 :=
  let w := at_x 0 in
  let b := at_x 1 in
  let t := at_x 2 in
  [w; b; b; b; t; b; b; b; t; b; b; b; t; b; b; b; t; b; b; b; t].

(** The same hand with the tips folded onto the base joints. *)
Definition fist : list Vec3 := at_x 0 :: replicate 20 (at_x 1).

(** Options whose floor is above their ceiling. *)
Definition invertedRadii : GestureController.SpreadOpts :=
  {| GestureController.radiusBase := Some 10%R;
     GestureController.radiusMax := Some 5%R;
     GestureController.radialJitter := None;
     GestureController.verticalJitter := None;
     GestureController.easing := None |}.

(** A random source that always draws one half. *)
Definition halves : Foliage.Random :=
  {| Foliage.draws := fun _ => 0.5%R; Foliage.cursor := 0 |}.

End Samples.

(** ** Vocabulary of the further statements *)

Module Stream.

Import GestureController.

Definition Gesture_eqb (a b : Gesture) : bool :=
  match a, b with
  | OPEN, OPEN | CLOSED, CLOSED | AMBIGUOUS, AMBIGUOUS => true
  | _, _ => false
  end.

(** The number of frames showing [g] since the last frame that showed
    another gesture, frames without a hand left aside; [n] is the number
    before [cls]. *)
Fixpoint runLength (g : Gesture) (cls : list Classification) (n : Z) : Z :=
  match cls with
  | [] => n
  | Hand g' :: cls => runLength g cls (if Gesture_eqb g' g then n + 1 else 0)
  | NONE :: cls => runLength g cls n
  end.

(** No event repeats the mode before it, [last] being the mode before the
    first. *)
Fixpoint alternates (last : TreeMode) (events : list TreeMode) : Prop :=
  match events with
  | [] => True
  | m :: events => m <> last /\ alternates m events
  end.

End Stream.

(** ** components/GestureController.tsx: the reported hand position *)

Module HandPosition.

Import GestureController.

(** The palm centre of [detectGesture]: the mean of the wrist and the four
    finger bases, in the image plane. *)
Definition palmCenter (landmarks : list Landmark) : option (R * R) :=
  l0 ← landmarks !! 0%nat;
  l5 ← landmarks !! 5%nat;
  l9 ← landmarks !! 9%nat;
  l13 ← landmarks !! 13%nat;
  l17 ← landmarks !! 17%nat;
  let palmCenterX := ((x l0 + x l5 + x l9 + x l13 + x l17) / 5)%R in
  let palmCenterY := ((y l0 + y l5 + y l9 + y l13 + y l17) / 5)%R in
  Some (palmCenterX, palmCenterY).

(** The joints [drawSingleHandSkeleton] connects. *)
Definition connections : list (nat * nat) :=
  [(0, 1); (1, 2); (2, 3); (3, 4);
   (0, 5); (5, 6); (6, 7); (7, 8);
   (0, 9); (9, 10); (10, 11); (11, 12);
   (0, 13); (13, 14); (14, 15); (15, 16);
   (0, 17); (17, 18); (18, 19); (19, 20);
   (5, 9); (9, 13); (13, 17)]%nat.

(** [connections.forEach]: both ends of a connection are read
    ([startPoint.x], [endPoint.x]), which throws on a landmark that is
    not there.  What is drawn on the canvas is not modelled, only whether
    the drawing returns. *)
Fixpoint strokes (landmarks : list Landmark) (connections : list (nat * nat))
  : option unit :=
  match connections with
  | [] => Some tt
  | (start, end') :: connections =>
      startPoint ← landmarks !! start;
      endPoint ← landmarks !! end';
      strokes landmarks connections
  end.

(** The [landmarks.forEach] that follows visits the landmarks that are
    there and throws nothing. *)
Definition drawSingleHandSkeleton (landmarks : list Landmark) : option unit :=
  strokes landmarks connections.

(** [allLandmarks.forEach]: every hand of the frame is drawn, the first
    one first. *)
Fixpoint drawEach (allLandmarks : list (list Landmark)) : option unit :=
  match allLandmarks with
  | [] => Some tt
  | landmarks :: allLandmarks =>
      drawn ← drawSingleHandSkeleton landmarks;
      drawEach allLandmarks
  end.

(** [drawAllHands] returns at once when the canvas, the video or the 2d
    context is missing; [canvas] says that all three are there. *)
Definition drawAllHands (canvas : bool) (allLandmarks : list (list Landmark))
  : option unit :=
  if canvas then drawEach allLandmarks else Some tt.

(** The arguments of the [onHandPosition] call of one frame of
    [predictWebcam]: with a hand, [drawAllHands] runs over all hands
    first and [detectGesture] then reports the palm centre of the first
    hand; without a hand the call reports the middle of the image and
    [false].  [None]: the frame throws before the call. *)
Definition onHandPosition (canvas : bool)
    (hands : option (list (list Landmark))) : option (R * R * bool) :=
  match hands with
  | Some (landmarks :: rest) =>
      drawn ← drawAllHands canvas (landmarks :: rest);
      '(palmCenterX, palmCenterY) ← palmCenter landmarks;
      Some (palmCenterX, palmCenterY, true)
  | Some [] | None => Some (0.5%R, 0.5%R, false)
  end.

End HandPosition.

(** ** Mulberry32 on unsigned words

    The hash [pseudoRandom] names in its comment, written on unsigned
    32-bit words as its C original is: every product and sum is reduced
    modulo 2^32 and nothing is ever negative. *)

Module Mulberry32.

Definition W : Z := 2 ^ 32.

Definition next (seed : Z) : Z :=
  let z := (seed + 0x6D2B79F5) mod W in
  let z := (Z.lxor z (Z.shiftr z 15) * Z.lor z 1) mod W in
  let z := Z.lxor z ((z + (Z.lxor z (Z.shiftr z 7) * Z.lor z 61) mod W) mod W) in
  Z.lxor z (Z.shiftr z 14).

(** The seeds on which [seed += 0x6D2B79F5] adds exactly: JavaScript adds
    doubles, and the sum of two integers is exact when both and their sum
    are of magnitude at most 2^53.  Beyond that the sum is rounded to a
    neighbouring double, and the word is no longer that of the integer
    sum. *)
Definition exactSeed (seed : Z) : Prop :=
  - 2 ^ 53 <= seed /\ seed + 0x6D2B79F5 <= 2 ^ 53.

End Mulberry32.

(** ** Parts of a spread entry

    The jittered angle and the radius that iteration [i] of
    [getUnleashSpreadPositions] computes before it builds the entry, read
    off its body. *)

Module SpreadParts.

Import GestureController.

Definition angle (count : nat) (opts : option SpreadOpts) (i : nat) : R :=
  let angleJitter := optOr opts radialJitter 0.28 in
  (spreadTheta count i
   + (pseudoRandom (Z.of_nat i + 1) * angleJitter - angleJitter / 2))%R.

Definition radius (opts : option SpreadOpts) (i : nat) : R :=
  let radiusBase := optOr opts radiusBase 7 in
  let radiusMax := optOr opts radiusMax 12 in
  let easing := optOr opts easing 1 in
  ((radiusBase + pseudoRandom (Z.of_nat i + 77) * (radiusMax - radiusBase))
   * easing)%R.

(** Options that ask for no spread at all. *)
Definition collapsed : SpreadOpts :=
  {| radiusBase := None; radiusMax := None; radialJitter := None;
     verticalJitter := None; easing := Some 0%R |}.

End SpreadParts.

(** ** components/Polaroids.tsx: the photo layout and the closest photo *)

Module PhotoLayout.

Import Foliage.
Local Open Scope R_scope.

(** One element of [photoData]; a [url] of [None] is [undefined]. *)
Record PhotoData : Type := {
  id : nat;
  url : option String.string;
  chaosPos : Vec3;
  targetPos : Vec3;
  speed : R
}.

(** The body of the [for] loop of the [photoData] memo at index [i]
    (its [y] is [y'] here, [y] being the field). *)
Definition photo (uploadedPhotos : list String.string) (count i : nat)
  : M PhotoData :=
  let height := 9 in
  let maxRadius := 5.0 in
  let yNorm := 0.2 + (INR i / INR count) * 0.6 in
  let y' := yNorm * height in
  let r := maxRadius * (1 - yNorm) + 0.8 in
  let theta := INR i * 2.39996 in
  let targetPos := {| x := r * cos theta; y := y'; z := r * sin theta |} in
  let center := {| x := 0; y := 5; z := 0 |} in
  let thetaChaos := (INR i / INR count) * PI * 2 in
  let radiusBase := 10 in
  let radiusMax := 20 in
  let rChaos :=
    radiusBase
    + Polaroids.pseudoRandom (Z.of_nat i + 77) * (radiusMax - radiusBase) in
  let angleJitter := (Polaroids.pseudoRandom (Z.of_nat i + 123) - 0.5) * 0.7 in
  let yJitter := (Polaroids.pseudoRandom (Z.of_nat i + 999) - 0.5) * 6 in
  let angleChaos := thetaChaos + angleJitter in
  let chaosPos :=
    {| x := x center + cos angleChaos * rChaos;
       y := y center + yJitter;
       z := z center + sin angleChaos * rChaos |} in
  let* d := Math_random in
  ret {| id := i; url := uploadedPhotos !! i;
         chaosPos := chaosPos; targetPos := targetPos;
         speed := 0.8 + d * 1.5 |}.

(** [for (let i = 0; i < count; i++) data.push(...)], from index [i] with
    [todo] iterations left. *)
Fixpoint photoLoop (uploadedPhotos : list String.string) (count todo i : nat)
    (data : list PhotoData) : M (list PhotoData) :=
  match todo with
  | O => ret data
  | S todo =>
      let* p := photo uploadedPhotos count i in
      photoLoop uploadedPhotos count todo (S i) (data ++ [p])
  end.

(** The [photoData] memo. *)
Definition photoData (uploadedPhotos : list String.string)
  : M (list PhotoData) :=
  if (length uploadedPhotos =? 0)%nat then ret []
  else
    let count := length uploadedPhotos in
    photoLoop uploadedPhotos count count 0%nat [].

(** [a.distanceTo(b)] of three.js. *)
Definition distanceTo (a b : Vec3) : R :=
  sqrt ((x a - x b) * (x a - x b) + (y a - y b) * (y a - y b)
        + (z a - z b) * (z a - z b)).

(** The callback of [children.forEach] in the closest-photo frame, from
    child [i] on; [minDistance] is [None] while it is [Infinity]. *)
Fixpoint forEachChild (photoCount : nat) (cameraPos : Vec3)
    (children : list Vec3) (i : nat)
    (minDistance : option R) (closestIndex : nat) : option R * nat :=
  match children with
  | [] => (minDistance, closestIndex)
  | worldPos :: children =>
      if (i <? photoCount)%nat then
        let distance := distanceTo worldPos cameraPos in
        if match minDistance with
           | None => true
           | Some m => JS.gtb m distance
           end
        then forEachChild photoCount cameraPos children (S i) (Some distance) i
        else forEachChild photoCount cameraPos children (S i)
               minDistance closestIndex
      else forEachChild photoCount cameraPos children (S i)
             minDistance closestIndex
  end.

(** The closest-photo frame with the group mounted and a callback given:
    the argument of [onClosestPhotoChange], [None] being [null] (or an
    [undefined] element of [uploadedPhotos]).  [children] are the world
    positions of the group's children. *)
Definition closestPhoto (twoHandsDetected : bool)
    (uploadedPhotos : list String.string) (photoCount : nat)
    (children : list Vec3) (cameraPos : Vec3) : option String.string :=
  if twoHandsDetected && (0 <? photoCount)%nat then
    let closestIndex :=
      snd (forEachChild photoCount cameraPos children 0%nat None 0%nat) in
    uploadedPhotos !! closestIndex
  else None.

(** Distance of a position from the vertical axis through the tree. *)
Definition radial (p : Vec3) : R := sqrt (x p * x p + z p * z p).

End PhotoLayout.

(** ** Vocabulary for the photo layout *)

Module PhotoFacts.

Import PhotoLayout.
Local Open Scope R_scope.

(** The fraction of the height at which photo [i] of [count] hangs. *)
Definition yNorm (count i : nat) : R := 0.2 + INR i / INR count * 0.6.

(** What the loop body settles for photo [i] of [count], the draw of its
    speed being [d]. *)
Definition placed (uploadedPhotos : list String.string) (count i : nat)
    (d : R) (p : PhotoData) : Prop :=
  id p = i /\ url p = uploadedPhotos !! i /\ speed p = 0.8 + d * 1.5 /\
  y (targetPos p) = yNorm count i * 9 /\
  radial (targetPos p) = 5 * (1 - yNorm count i) + 0.8 /\
  10 <= radial (chaosPos p) < 20 /\
  2 <= y (chaosPos p) < 8.

End PhotoFacts.

(** ** More sample inputs *)

Module Pictures.

Import Strings.String.
Local Open Scope string_scope.

(** Three uploaded pictures. *)
Definition three : list string := ["/photos/1.jpg"; "/photos/2.jpg"; "/photos/3.jpg"].

(** A single uploaded picture. *)
Definition one : list string := ["/photos/1.jpg"].

End Pictures.

(** ** components/Experience.tsx: the hand-driven camera *)

Module CameraRig.

Local Open Scope R_scope.

(** The [handPosition] prop. *)
Record HandPosition : Type := { hand_x : R; hand_y : R; detected : bool }.

(** [(handPosition.x - 0.5) * Math.PI * 3] *)
Definition targetAzimuth (handPosition : HandPosition) : R :=
  (hand_x handPosition - 0.5) * PI * 3.

Definition minPolar : R := PI / 4.
Definition maxPolar : R := PI / 1.8.

Definition targetPolar (handPosition : HandPosition) : R :=
  let adjustedY := (hand_y handPosition - 0.2) * 2.0 in
  let clampedY := Rmax 0 (Rmin 1 adjustedY) in
  minPolar + clampedY * (maxPolar - minPolar).

(** The difference to the target azimuth after the two wrapping tests. *)
Definition azimuthDiff (handPosition : HandPosition) (currentAzimuth : R) : R :=
  let azimuthDiff := targetAzimuth handPosition - currentAzimuth in
  let azimuthDiff :=
    if JS.gtb azimuthDiff PI then azimuthDiff - PI * 2 else azimuthDiff in
  let azimuthDiff :=
    if JS.gtb (- PI) azimuthDiff then azimuthDiff + PI * 2 else azimuthDiff in
  azimuthDiff.

Definition lerpSpeed : R := 8.

Definition newAzimuth (handPosition : HandPosition) (delta currentAzimuth : R)
  : R :=
  currentAzimuth + azimuthDiff handPosition currentAzimuth * delta * lerpSpeed.

Definition newPolar (handPosition : HandPosition) (delta currentPolar : R)
  : R :=
  currentPolar + (targetPolar handPosition - currentPolar) * delta * lerpSpeed.

Definition targetY : R := 4.

(** The frame callback with the controls mounted: the position given to
    the camera, or [None] when no hand is detected and the camera is left
    alone.  [currentAzimuth], [currentPolar] and [radius] are what the
    controls report. *)
Definition useFrame (handPosition : HandPosition)
    (delta currentAzimuth currentPolar radius : R) : option Vec3 :=
  if detected handPosition then
    let newAzimuth := newAzimuth handPosition delta currentAzimuth in
    let newPolar := newPolar handPosition delta currentPolar in
    Some {| x := radius * sin newPolar * sin newAzimuth;
            y := targetY + radius * cos newPolar;
            z := radius * sin newPolar * cos newAzimuth |}
  else None.

(** The point the camera looks at, [controls.target]. *)
Definition target : Vec3 := {| x := 0; y := targetY; z := 0 |}.

(** A hand in the middle of the image. *)
Definition centred : HandPosition :=
  {| hand_x := 0.5; hand_y := 0.5; detected := true |}.

End CameraRig.

(** ** components/Foliage.tsx: the position part of the vertex shader *)

Module FoliageShader.

Local Open Scope R_scope.

(** GLSL [clamp(v, lo, hi)] is [min(max(v, lo), hi)]. *)
Definition clamp (v lo hi : R) : R := Rmin (Rmax v lo) hi.

(** GLSL [mix(a, b, t)] is [a * (1 - t) + b * t], on each component. *)
Definition mix (a b t : R) : R := a * (1 - t) + b * t.

Definition mix3 (a b : Vec3) (t : R) : Vec3 :=
  {| x := mix (x a) (x b) t; y := mix (y a) (y b) t; z := mix (z a) (z b) t |}.

(** GLSL [pow(b, 3.0)], for a base that is not negative. *)
Definition pow3 (b : R) : R := b * b * b.

(** [cubicInOut] *)
Definition cubicInOut (t : R) : R :=
  if JS.gtb 0.5 t then 4.0 * t * t * t
  else 1.0 - pow3 (-2.0 * t + 2.0) / 2.0.

Definition localProgress (uProgress aRandom : R) : R :=
  clamp (uProgress * 1.2 - aRandom * 0.2) 0.0 1.0.

Definition easedProgress (uProgress aRandom : R) : R :=
  cubicInOut (localProgress uProgress aRandom).

(** [newPos] when [main] hands it to the model-view matrix: the blend of
    the two positions, swayed a little once the progress is above 0.9. *)
Definition newPos (uTime uProgress aRandom : R) (aChaosPos aTargetPos : Vec3)
  : Vec3 :=
  let newPos := mix3 aChaosPos aTargetPos (easedProgress uProgress aRandom) in
  if JS.gtb uProgress 0.9 then
    {| x := x newPos + sin (uTime * 2.0 + y newPos) * 0.05;
       y := y newPos;
       z := z newPos + cos (uTime * 1.5 + y newPos) * 0.05 |}
  else newPos.

End FoliageShader.

(** ** Vocabulary for the particle cloud *)

Module Cloud.

Import Foliage.
Local Open Scope R_scope.

(** Particle [k] of the buffers lies in the chaos box, and its target in
    the canopy slab, and its random factor in [0, 1). *)
Definition inBox (b : Buffers) (k : nat) : Prop :=
  exists cx cy cz ty rf,
    chaos b !! (k * 3)%nat = Some cx /\
    chaos b !! (k * 3 + 1)%nat = Some cy /\
    chaos b !! (k * 3 + 2)%nat = Some cz /\
    target b !! (k * 3 + 1)%nat = Some ty /\
    rnd b !! k = Some rf /\
    -99 <= cx <= 99 /\ -57 <= cy <= 73 /\ -71.5 <= cz <= 71.5 /\
    10.85 <= ty <= 13.6 /\ 0 <= rf < 1.

End Cloud.

(** ** The star field (the second component of the trunk file) *)

Module StarField.

Import Foliage.
Local Open Scope R_scope.

Record Stars : Type := {
  positions : list R;
  sizes : list R;
  twinkles : list R
}.

(** The body of the [for] loop at index [i]. *)
Definition star (i : nat) (s : Stars) : M Stars :=
  let* d := Math_random in
  let radius := 40 + d * 60 in
  let* d := Math_random in
  let theta := d * PI * 2 in
  let* d := Math_random in
  let phi := acos (2 * d - 1) in
  let positions :=
    <[(i * 3)%nat := radius * sin phi * cos theta]> (positions s) in
  let positions :=
    <[(i * 3 + 1)%nat := radius * sin phi * sin theta]> positions in
  let positions := <[(i * 3 + 2)%nat := radius * cos phi]> positions in
  let* d := Math_random in
  let sizes := <[i := d * 2 + 0.5]> (sizes s) in
  let* d := Math_random in
  let twinkles := <[i := d]> (twinkles s) in
  ret {| positions := positions; sizes := sizes; twinkles := twinkles |}.

(** [for (let i = 0; i < count; i++) body], from index [i] with [todo]
    iterations left. *)
Fixpoint starLoop (todo i : nat) (s : Stars) : M Stars :=
  match todo with
  | O => ret s
  | S todo => let* s' := star i s in starLoop todo (S i) s'
  end.

(** The memo of [StarField]; the three [Float32Array]s start zero-filled. *)
Definition generate (count : nat) : M Stars :=
  starLoop count 0%nat
    {| positions := replicate (count * 3) 0;
       sizes := replicate count 0;
       twinkles := replicate count 0 |}.

(** Star [k] of the arrays lies in the shell between 40 and 100 from the
    origin, with a size in [0.5, 2.5) and a twinkle phase in [0, 1). *)
Definition inShell (s : Stars) (k : nat) : Prop :=
  exists px py pz size twinkle,
    positions s !! (k * 3)%nat = Some px /\
    positions s !! (k * 3 + 1)%nat = Some py /\
    positions s !! (k * 3 + 2)%nat = Some pz /\
    sizes s !! k = Some size /\ twinkles s !! k = Some twinkle /\
    40 <= sqrt (px * px + py * py + pz * pz) < 100 /\
    0.5 <= size < 2.5 /\ 0 <= twinkle < 1.

End StarField.

(** ** components/Polaroids.tsx: the move of one photo *)

Module PolaroidItem.

Import PhotoLayout.
Local Open Scope R_scope.

(** [this.lerp(v, alpha)] of a three.js [Vector3]. *)
Definition Vector3_lerp (this v : Vec3) (alpha : R) : Vec3 :=
  {| x := x this + (x v - x this) * alpha;
     y := y this + (y v - y this) * alpha;
     z := z this + (z v - z this) * alpha |}.

(** The place a photo heads for in a mode. *)
Definition goal (mode : TreeMode) (data : PhotoData) : Vec3 :=
  let isFormed := TreeMode_eqb mode FORMED in
  if isFormed then targetPos data else chaosPos data.

Definition step (mode : TreeMode) (data : PhotoData) (delta : R) : R :=
  let chaosBoost := if TreeMode_eqb mode CHAOS then 2.2 else 1.0 in
  delta * speed data * chaosBoost.

(** The position part of the frame callback of a mounted photo. *)
Definition useFrame (mode : TreeMode) (data : PhotoData) (delta : R)
    (position : Vec3) : Vec3 :=
  Vector3_lerp position (goal mode data) (step mode data delta).


End PolaroidItem.

(** ** The petals (the unnamed source file) *)

Module Petals.

Local Open Scope R_scope.

(** [a <= b] on numbers *)
Definition leb (a b : R) : bool := if Rle_dec a b then true else false.

(** [a % 1] *)
Definition mod1 (a : R) : R :=
  if Rle_dec 0 a then frac_part a else - frac_part (- a).

(** *** The weighted pick of a puff centre *)

Record Puff : Type := { c : Vec3; w : R; sigma : R }.

(** [let totalW = 0; for (const p of puffCenters) totalW += p.w] *)
Definition totalW (puffCenters : list Puff) : R :=
  foldl (fun totalW p => totalW + w p) 0 puffCenters.

(** The scanning loop, from the puffs that are left: [chosen] stays as it
    is unless a puff brings [pick] to 0 or below, which ends the loop. *)
Fixpoint scan (puffCenters : list Puff) (pick : R) (chosen : option Puff)
  : option Puff :=
  match puffCenters with
  | [] => chosen
  | p :: puffCenters =>
      let pick := pick - w p in
      if leb pick 0 then Some p else scan puffCenters pick chosen
  end.

(** The pick for the draw [d] of [Math.random]; [None] is the [undefined]
    that [puffCenters[0]] is for an empty array. *)
Definition pickPuff (puffCenters : list Puff) (d : R) : option Puff :=
  let pick := d * totalW puffCenters in
  let chosen := puffCenters !! 0%nat in
  scan puffCenters pick chosen.

(** *** The frame callback *)

Record Petal : Type := {
  base : Vec3;
  phase : R;
  drift : R;
  scale : R;
  scaleVariation : R
}.

(** The arguments of [dummy.position.set] for petal [i] at time [t]. *)
Definition position (mode : TreeMode) (t : R) (i : nat) (p : Petal) : Vec3 :=
  let chaos := if TreeMode_eqb mode CHAOS then 1 else 0 in
  let swayX := sin (t * drift p + phase p) * 0.05 in
  let swayZ := cos (t * drift p + phase p) * 0.05 in
  let gravity := -0.01 * drift p in
  let fall :=
    if TreeMode_eqb mode CHAOS
    then mod1 (t * 0.15 + INR i * 0.002) * -2.0 else 0 in
  {| x := x (base p) + swayX + chaos * (sin (t + INR i) * 0.8);
     y := y (base p) + gravity + fall + chaos * (cos (t + INR i * 0.5) * 0.3);
     z := z (base p) + swayZ + chaos * (cos (t + INR i) * 0.8) |}.

(** The first two arguments of [dummy.scale.set]. *)
Definition baseScale (t : R) (p : Petal) : R :=
  let flutter := 1.0 + sin (t * 2.5 + phase p) * 0.03 in
  scale p * 1.3 * scaleVariation p * flutter.

(** The sum of the weights of the first [k] puffs. *)
Definition weightBefore (puffCenters : list Puff) (k : nat) : R :=
  foldr (fun p s => w p + s) 0 (take k puffCenters).

(** Two puffs and a petal for the examples. *)
Definition twoPuffs : list Puff :=
  [ {| c := {| x := 1; y := 2; z := 0 |}; w := 0.6; sigma := 0.5 |};
    {| c := {| x := 0; y := 2; z := 1 |}; w := 1.8; sigma := 0.9 |} ].

Definition petal : Petal :=
  {| base := {| x := 1; y := 3; z := 1 |}; phase := 2; drift := 0.5;
     scale := 0.08; scaleVariation := 1 |}.

End Petals.

(** ** The petals: the soft boundary clamp *)

Module PetalBoundary.

Local Open Scope R_scope.

(** The soft boundary clamp of the petal loop, on the [x] and [z] it has
    reached, for the [radius] prop. *)
Definition softClamp (radius x z : R) : R * R :=
  let rr := sqrt (x * x + z * z) in
  let maxR := radius * 1.05 in
  if JS.gtb rr maxR then
    let s := maxR / rr in
    (x * s, z * s)
  else (x, z).

End PetalBoundary.

(** ** Vocabulary for the mode-sync effect

    The gesture that asks for a mode, the mode a gesture would take the
    tree back to after an outside change, and the counter that counts the
    run of a gesture. *)

Module Override.

Import GestureController.

Definition otherMode (m : TreeMode) : TreeMode :=
  match m with CHAOS => FORMED | FORMED => CHAOS end.

(** [OPEN] commits [CHAOS] and [CLOSED] commits [FORMED]. *)
Definition gestureFor (m : TreeMode) : Gesture :=
  match m with CHAOS => OPEN | FORMED => CLOSED end.

Definition runCounter (g : Gesture) (c : Controller) : Z :=
  match g with
  | OPEN => openFrames c
  | CLOSED => closedFrames c
  | AMBIGUOUS => 0
  end.

(** A hand held open for nine frames since [CHAOS] was committed. *)
Definition heldOpen : Controller :=
  {| openFrames := 9; closedFrames := 0;
     lastModeRef := CHAOS; currentMode := CHAOS |}.

End Override.

(** * Properties *)

Lemma TreeMode_eqb_spec (a b : TreeMode) : TreeMode_eqb a b = true <-> a = b.
Proof. destruct a, b; simpl; split; intros H; congruence. Qed.

(** ** The debouncer *)

Section Debouncer.

Import GestureController.

(** [predictWebcam] is one step of the classification stream. *)
Lemma predictWebcam_frameStep hands c :
  predictWebcam hands c = (cl ← classifyFrame hands; Some (frameStep cl c)).
Proof.
  destruct hands as [[|landmarks hands]|]; simpl; try reflexivity.
  unfold detectGesture. destruct (countExtended landmarks); reflexivity.
Qed.

(** The loop over frames whose landmarks can all be read is the
    classification stream of those frames. *)
Lemma webcam_feed frames c :
  webcam frames c = (cls ← mapM classifyFrame frames; Some (feed cls c)).
Proof.
  revert c. induction frames as [|hands frames IH]; intros c; [reflexivity|].
  cbn [webcam mapM]. rewrite predictWebcam_frameStep.
  destruct (classifyFrame hands) as [cl|]; [|reflexivity].
  cbn [mbind option_bind].
  destruct (frameStep cl c) as [c1 e1] eqn:Hstep. rewrite IH.
  destruct (mapM classifyFrame frames) as [cls|]; [|reflexivity].
  cbn [mbind option_bind mret option_ret feed]. rewrite Hstep.
  destruct (feed cls c1) as [c2 e2]. reflexivity.
Qed.

Lemma feed_app cls1 cls2 c :
  feed (cls1 ++ cls2) c =
  let '(c1, e1) := feed cls1 c in
  let '(c2, e2) := feed cls2 c1 in
  (c2, e1 ++ e2).
Proof.
  revert c. induction cls1 as [|cl cls1 IH]; intros c; simpl.
  - destruct (feed cls2 c); reflexivity.
  - destruct (frameStep cl c) as [c1 e1]. rewrite IH.
    destruct (feed cls1 c1) as [c2 e2], (feed cls2 c2) as [c3 e3].
    now rewrite app_assoc.
Qed.

(** A frame whose gesture asks for the mode that is already committed
    calls [onModeChange] not at all and leaves the committed mode. *)
Lemma commitGesture_held g c :
  match g with
  | OPEN => lastModeRef c = CHAOS
  | CLOSED => lastModeRef c = FORMED
  | AMBIGUOUS => True
  end ->
  (commitGesture g c).2 = [] /\
  lastModeRef (commitGesture g c).1 = lastModeRef c.
Proof.
  destruct g; simpl; intros H; try rewrite H; simpl.
  - destruct (CONFIDENCE_THRESHOLD <? openFrames c + 1); simpl; auto.
  - destruct (CONFIDENCE_THRESHOLD <? closedFrames c + 1); simpl; auto.
  - auto.
Qed.

Lemma feed_open_held n c :
  lastModeRef c = CHAOS ->
  (feed (replicate n (Hand OPEN)) c).2 = [].
Proof.
  revert c. induction n as [|n IH]; intros c Hc; [reflexivity|].
  destruct (commitGesture_held OPEN c Hc) as [He Hm].
  cbn [replicate feed frameStep].
  destruct (commitGesture OPEN c) as [c1 e1]; cbn [fst snd] in *.
  specialize (IH c1 (eq_trans Hm Hc)).
  destruct (feed (replicate n (Hand OPEN)) c1) as [c2 e2]; cbn [fst snd] in *.
  now subst.
Qed.

(** C1.  From counters at zero and a committed mode other than CHAOS, a
    run of OPEN frames as long as the threshold (5) calls [onModeChange]
    not at all; one frame more calls it once, with CHAOS; and however
    many OPEN frames follow (100, say), that call stays the only one. *)
Theorem open_run_commits_once (c : Controller) :
  openFrames c = 0 -> closedFrames c = 0 -> lastModeRef c <> CHAOS ->
  let THRESHOLD := Z.to_nat CONFIDENCE_THRESHOLD in
  (feed (replicate THRESHOLD (Hand OPEN)) c).2 = [] /\
  (feed (replicate (THRESHOLD + 1) (Hand OPEN)) c).2 = [CHAOS] /\
  (forall more,
     (feed (replicate (THRESHOLD + 1 + more) (Hand OPEN)) c).2 = [CHAOS]) /\
  (feed (replicate (THRESHOLD + 1 + 100) (Hand OPEN)) c).2 = [CHAOS].
Proof.
  destruct c as [o cl m cm]; simpl. intros -> -> Hm.
  destruct m; [congruence|].
  assert (Hmore : forall more,
    (feed (replicate (Z.to_nat CONFIDENCE_THRESHOLD + 1 + more) (Hand OPEN))
       {| openFrames := 0; closedFrames := 0;
          lastModeRef := FORMED; currentMode := cm |}).2 = [CHAOS]).
  { intros more. rewrite replicate_add, feed_app.
    change (feed (replicate (Z.to_nat CONFIDENCE_THRESHOLD + 1) (Hand OPEN))
              {| openFrames := 0; closedFrames := 0;
                 lastModeRef := FORMED; currentMode := cm |})
      with ({| openFrames := 6; closedFrames := 0;
               lastModeRef := CHAOS; currentMode := cm |}, [CHAOS]).
    pose proof (feed_open_held more
      {| openFrames := 6; closedFrames := 0;
         lastModeRef := CHAOS; currentMode := cm |} eq_refl) as H.
    cbv iota beta.
    destruct (feed (replicate more (Hand OPEN)) _) as [c2 e2].
    cbn [fst snd] in *. now subst. }
  split; [reflexivity|].
  split; [reflexivity|].
  split; [exact Hmore | exact (Hmore 100%nat)].
Qed.

Lemma open_run_commits_once_witness :
  let THRESHOLD := Z.to_nat CONFIDENCE_THRESHOLD in
  (feed (replicate THRESHOLD (Hand OPEN)) (mount FORMED)).2 = [] /\
  (feed (replicate (THRESHOLD + 1) (Hand OPEN)) (mount FORMED)).2 = [CHAOS] /\
  (forall more,
     (feed (replicate (THRESHOLD + 1 + more) (Hand OPEN)) (mount FORMED)).2
     = [CHAOS]) /\
  (feed (replicate (THRESHOLD + 1 + 100) (Hand OPEN)) (mount FORMED)).2
  = [CHAOS].
Proof.
  apply (open_run_commits_once (mount FORMED)).
  - reflexivity.
  - reflexivity.
  - simpl. discriminate.
Defined.

(** C6.  A frame without a hand -- [result.landmarks] absent or empty --
    takes one off each counter, stopping at zero, calls [onModeChange]
    not at all and leaves the committed mode as it is. *)
Theorem no_hand_decays (c : Controller) :
  forall hands, hands = None \/ hands = Some [] ->
  classifyFrame hands = Some NONE /\
  exists c',
    predictWebcam hands c = Some (c', []) /\
    openFrames c' = Z.max 0 (openFrames c - 1) /\
    closedFrames c' = Z.max 0 (closedFrames c - 1) /\
    lastModeRef c' = lastModeRef c /\
    currentMode c' = currentMode c.
Proof.
  intros hands [-> | ->]; (split; [reflexivity|]);
    eexists; (split; [reflexivity|]); simpl; auto.
Qed.

Lemma no_hand_decays_witness :
  classifyFrame (Some []) = Some NONE /\
  exists c',
    predictWebcam (Some [])
      {| openFrames := 3; closedFrames := 0;
         lastModeRef := FORMED; currentMode := FORMED |} = Some (c', []) /\
    openFrames c' = Z.max 0 (3 - 1) /\
    closedFrames c' = Z.max 0 (0 - 1) /\
    lastModeRef c' = FORMED /\
    currentMode c' = FORMED.
Proof.
  apply (no_hand_decays
           {| openFrames := 3; closedFrames := 0;
              lastModeRef := FORMED; currentMode := FORMED |} (Some [])).
  right. reflexivity.
Defined.

(** One frame keeps the counters non-negative and at most one of them
    away from zero. *)
Lemma frameStep_countersOk cl c :
  Spec.countersOk c -> Spec.countersOk (frameStep cl c).1.
Proof.
  unfold Spec.countersOk. intros (Ho & Hc & Hz).
  destruct cl as [[| |]|]; simpl.
  - destruct (CONFIDENCE_THRESHOLD <? openFrames c + 1);
      [destruct (negb (TreeMode_eqb (lastModeRef c) CHAOS))|]; simpl; lia.
  - destruct (CONFIDENCE_THRESHOLD <? closedFrames c + 1);
      [destruct (negb (TreeMode_eqb (lastModeRef c) FORMED))|]; simpl; lia.
  - lia.
  - lia.
Qed.

Lemma feed_countersOk cls c :
  Spec.countersOk c -> Spec.countersOk (feed cls c).1.
Proof.
  revert c. induction cls as [|cl cls IH]; intros c Hc; [exact Hc|].
  cbn [feed]. pose proof (frameStep_countersOk cl c Hc) as H1.
  destruct (frameStep cl c) as [c1 e1]. cbn [fst] in H1.
  specialize (IH c1 H1).
  now destruct (feed cls c1) as [c2 e2].
Qed.

(** C10.  Whatever classifications are fed, frame after frame, to a
    debouncer whose counters are both zero, the counters it ends with
    are non-negative integers and at most one of them is not zero. *)
Theorem counters_invariant (cls : list Classification) (c : Controller) :
  openFrames c = 0 -> closedFrames c = 0 ->
  Spec.countersOk (feed cls c).1.
Proof.
  intros Ho Hc. apply feed_countersOk. unfold Spec.countersOk. lia.
Qed.

Lemma counters_invariant_witness :
  Spec.countersOk
    (feed [Hand OPEN; Hand OPEN; NONE; Hand CLOSED; Hand AMBIGUOUS; NONE;
           Hand CLOSED; Hand OPEN]
       (mount FORMED)).1.
Proof.
  apply (counters_invariant _ (mount FORMED)); reflexivity.
Defined.

(** Frames that ask for no mode, or for the committed one, call
    [onModeChange] not at all and leave the committed mode. *)
Lemma feed_held m cls c :
  lastModeRef c = m ->
  Forall (fun cl => Spec.impliedMode cl = None \/ Spec.impliedMode cl = Some m)
         cls ->
  (feed cls c).2 = [] /\ lastModeRef (feed cls c).1 = m.
Proof.
  intros Hm Hall. revert c Hm.
  induction Hall as [|cl cls Hcl _ IH]; intros c Hm; [now split|].
  cbn [feed].
  assert (H1 : (frameStep cl c).2 = [] /\
               lastModeRef (frameStep cl c).1 = lastModeRef c).
  { destruct cl as [g|]; [|now split].
    apply commitGesture_held.
    destruct g, m, Hcl as [Hcl|Hcl]; simpl in Hcl; try discriminate; auto. }
  destruct (frameStep cl c) as [c1 e1]. cbn [fst snd] in H1.
  destruct H1 as [-> H1]. rewrite Hm in H1.
  specialize (IH c1 H1). now destruct (feed cls c1) as [c2 e2].
Qed.

Local Ltac not_called :=
  first [ apply not_elem_of_nil
        | let H := fresh in
          intros H; apply list_elem_of_singleton in H; discriminate H ].

(** After a render that changes the mode the effect has set the
    committed mode and left the counters; that mode is not called again,
    and frames that ask for it or for nothing call nothing. *)
Lemma render_sets_committed_mode (c : Controller) (m : TreeMode) :
  m <> currentMode c ->
  (lastModeRef (render m c) = m /\
   currentMode (render m c) = m /\
   openFrames (render m c) = openFrames c /\
   closedFrames (render m c) = closedFrames c) /\
  (forall cl, m ∉ (frameStep cl (render m c)).2) /\
  (forall cls,
     Forall (fun cl => Spec.impliedMode cl = None \/
                       Spec.impliedMode cl = Some m) cls ->
     (feed cls (render m c)).2 = [] /\
     lastModeRef (feed cls (render m c)).1 = m).
Proof.
  intros Hne.
  assert (Hr : lastModeRef (render m c) = m /\ currentMode (render m c) = m /\
               openFrames (render m c) = openFrames c /\
               closedFrames (render m c) = closedFrames c).
  { unfold render. destruct (TreeMode_eqb m (currentMode c)) eqn:E.
    - apply TreeMode_eqb_spec in E. contradiction.
    - now repeat split. }
  split; [exact Hr|].
  destruct Hr as (Hl & _ & _ & _). revert Hl.
  generalize (render m c). intros c' Hl.
  split.
  - intros cl. destruct cl as [[| |]|]; simpl; rewrite ?Hl.
    + destruct (CONFIDENCE_THRESHOLD <? _); [destruct m|]; simpl; not_called.
    + destruct (CONFIDENCE_THRESHOLD <? _); [destruct m|]; simpl; not_called.
    + not_called.
    + not_called.
  - intros cls Hall. now apply feed_held.
Qed.

(** While both counters are at most [k] and [k] plus the number of frames
    is at most the threshold, no counter passes the threshold and
    [onModeChange] is not called. *)
Lemma feed_quiet cls : forall c k,
  openFrames c <= k -> closedFrames c <= k -> 0 <= k ->
  k + Z.of_nat (length cls) <= CONFIDENCE_THRESHOLD ->
  (feed cls c).2 = [].
Proof.
  induction cls as [|cl cls IH]; intros c k Ho Hc Hk Hlen; [reflexivity|].
  cbn [feed]. cbn [length] in Hlen.
  assert (H1 : (frameStep cl c).2 = [] /\
               openFrames (frameStep cl c).1 <= k + 1 /\
               closedFrames (frameStep cl c).1 <= k + 1).
  { clear IH.
    destruct cl as [[| |]|]; simpl; unfold CONFIDENCE_THRESHOLD in *.
    - destruct (Z.ltb_spec 5 (openFrames c + 1)); [exfalso; lia|].
      simpl. repeat split; lia.
    - destruct (Z.ltb_spec 5 (closedFrames c + 1)); [exfalso; lia|].
      simpl. repeat split; lia.
    - repeat split; lia.
    - repeat split; lia. }
  destruct (frameStep cl c) as [c1 e1]. cbn [fst snd] in H1.
  destruct H1 as (-> & Ho1 & Hc1).
  specialize (IH c1 (k + 1) Ho1 Hc1 ltac:(lia) ltac:(lia)).
  destruct (feed cls c1) as [c2 e2]. cbn [snd] in IH |- *. exact IH.
Qed.

(** C7 (as amended).  When the mode is changed from outside -- the
    component is rendered with a [currentMode] other than the one it
    had -- the committed mode of the debouncer becomes that mode and the
    two frame counters stay what they were.  From there no frame calls
    [onModeChange] with that mode again; frames that show its own
    gesture, an ambiguous hand or no hand call [onModeChange] not at
    all; a frame that shows the opposite gesture calls it with the
    opposite mode exactly when the run counter of that gesture, which
    the change has not reset, passes the threshold with this frame; and
    when both counters were at zero at the change, the next five frames,
    whatever they show, call nothing. *)
Theorem external_mode_change_sets_committed_mode
    (c : Controller) (m : TreeMode) :
  m <> currentMode c ->
  let c' := render m c in
  let back := Override.gestureFor (Override.otherMode m) in
  (lastModeRef c' = m /\ currentMode c' = m /\
   openFrames c' = openFrames c /\ closedFrames c' = closedFrames c) /\
  (forall cl, m ∉ (frameStep cl c').2) /\
  (forall cls,
     Forall (fun cl => Spec.impliedMode cl = None \/
                       Spec.impliedMode cl = Some m) cls ->
     (feed cls c').2 = [] /\ lastModeRef (feed cls c').1 = m) /\
  (frameStep (Hand back) c').2 =
    (if CONFIDENCE_THRESHOLD <? Override.runCounter back c + 1
     then [Override.otherMode m] else []) /\
  (openFrames c = 0 -> closedFrames c = 0 ->
   forall cls, (length cls <= 5)%nat -> (feed cls c').2 = []).
Proof.
  intros Hne c' back.
  destruct (render_sets_committed_mode c m Hne) as (Hr & Hnot & Hheld).
  fold c' in Hr, Hnot, Hheld.
  split; [exact Hr|]. split; [exact Hnot|]. split; [exact Hheld|].
  destruct Hr as (Hl & _ & Ho & Hc).
  split.
  - subst back. revert Hl Ho Hc. generalize c'. clear. intros c' Hl Ho Hc.
    destruct m; simpl; rewrite Hl, ?Ho, ?Hc; simpl.
    + destruct (CONFIDENCE_THRESHOLD <? closedFrames c + 1); reflexivity.
    + destruct (CONFIDENCE_THRESHOLD <? openFrames c + 1); reflexivity.
  - intros Ho0 Hc0 cls Hlen.
    apply (feed_quiet cls c' 0); unfold CONFIDENCE_THRESHOLD; lia.
Qed.

Lemma external_mode_change_sets_committed_mode_witness :
  let c' := render FORMED Override.heldOpen in
  (lastModeRef c' = FORMED /\ currentMode c' = FORMED /\
   openFrames c' = 9 /\ closedFrames c' = 0) /\
  (forall cl, FORMED ∉ (frameStep cl c').2) /\
  (forall cls,
     Forall (fun cl => Spec.impliedMode cl = None \/
                       Spec.impliedMode cl = Some FORMED) cls ->
     (feed cls c').2 = [] /\ lastModeRef (feed cls c').1 = FORMED) /\
  (frameStep (Hand OPEN) c').2 = [CHAOS] /\
  (9 = 0 -> 0 = 0 ->
   forall cls, (length cls <= 5)%nat -> (feed cls c').2 = []).
Proof.
  apply (external_mode_change_sets_committed_mode Override.heldOpen FORMED).
  simpl. discriminate.
Defined.

(** The claim does not hold for a gesture that is being held: with a hand
    held open for nine frames, an outside change to [FORMED] sets the
    committed mode to [FORMED], and the very next frame of the open hand
    calls [onModeChange] with [CHAOS], the mode the gesture asks for: the
    debouncer takes the outside change back at once. *)
Lemma override_undone_by_held_gesture :
  let c' := render FORMED Override.heldOpen in
  currentMode Override.heldOpen <> FORMED /\
  lastModeRef c' = FORMED /\
  Spec.impliedMode (Hand OPEN) = Some CHAOS /\
  (frameStep (Hand OPEN) c').2 = [CHAOS] /\
  lastModeRef (frameStep (Hand OPEN) c').1 = CHAOS.
Proof.
  cbv zeta. split; [discriminate|]. repeat split.
Qed.

End Debouncer.

(** ** The Mulberry32 hash *)

Section PseudoRandom.

Lemma ushr_range a n : 0 <= n -> 0 <= JS.ushr a n < 2 ^ 32.
Proof.
  intros Hn. unfold JS.ushr, JS.ToUint32.
  assert (H : 0 <= a mod 2 ^ 32 < 2 ^ 32) by (apply Z.mod_pos_bound; lia).
  rewrite Z.shiftr_div_pow2 by exact Hn.
  assert (Hp : 0 < 2 ^ n) by (apply Z.pow_pos_nonneg; lia).
  revert H Hp. generalize (a mod 2 ^ 32) (2 ^ n). intros m p H Hp.
  split.
  - apply Z.div_pos; lia.
  - apply Z.le_lt_trans with m; [|lia].
    apply Z.div_le_upper_bound; [lia|].
    destruct H as [H _]. revert H Hp. generalize (2 ^ 32). intros. nia.
Qed.

Lemma word_unit_interval w :
  0 <= w < 2 ^ 32 -> (0 <= IZR w / 4294967296 < 1)%R.
Proof.
  intros [Hlo Hhi].
  apply IZR_le in Hlo. apply IZR_lt in Hhi.
  change (IZR (2 ^ 32)) with 4294967296%R in Hhi.
  lra.
Qed.

(** The two copies compute the same word. *)
Lemma pseudoRandom_copies seed :
  Polaroids.pseudoRandom seed = GestureController.pseudoRandom seed.
Proof.
  unfold Polaroids.pseudoRandom, GestureController.pseudoRandom.
  unfold Polaroids.pseudoRandom_word, GestureController.pseudoRandom_word.
  cbv zeta. reflexivity.
Qed.

(** The first outputs, against Mulberry32 on unsigned 32-bit words. *)
Example pseudoRandom_word_samples :
  map GestureController.pseudoRandom_word [0; 1; 2; 77; 113; -5] =
  [1144304738; 2693262067; 3153583793; 1827943904; 3079360792; 2078107854].
Proof. vm_compute. reflexivity. Qed.

Lemma pseudoRandom_range seed :
  (0 <= GestureController.pseudoRandom seed < 1)%R.
Proof. apply word_unit_interval, ushr_range. lia. Qed.

(** C9.  [pseudoRandom], in both files, is a function of its seed alone:
    two calls with the same seed give the same output, with nothing kept
    between calls; and every output is at least 0 and less than 1. *)
Theorem pseudoRandom_pure_unit_interval (seed seed' : Z) :
  seed' = seed ->
  (GestureController.pseudoRandom seed' = GestureController.pseudoRandom seed /\
   Polaroids.pseudoRandom seed' = Polaroids.pseudoRandom seed) /\
  (0 <= GestureController.pseudoRandom seed < 1)%R /\
  (0 <= Polaroids.pseudoRandom seed < 1)%R.
Proof.
  intros ->. split; [split; reflexivity|].
  split; apply word_unit_interval, ushr_range; lia.
Qed.

Lemma pseudoRandom_pure_unit_interval_witness :
  (GestureController.pseudoRandom 77 = GestureController.pseudoRandom 77 /\
   Polaroids.pseudoRandom 77 = Polaroids.pseudoRandom 77) /\
  (0 <= GestureController.pseudoRandom 77 < 1)%R /\
  (0 <= Polaroids.pseudoRandom 77 < 1)%R.
Proof.
  exact (pseudoRandom_pure_unit_interval 77 77 eq_refl).
Defined.

End PseudoRandom.

(** ** The gesture classifier *)

Section Classifier.

Import GestureController.

Lemma fingerExtended_spec w t b ratio :
  fingerExtended w t b ratio = true <->
  (Spec.distance t w > ratio * Spec.distance b w)%R.
Proof.
  unfold fingerExtended, JS.gtb, JS.hypot, Spec.distance.
  destruct (Rgt_dec _ _) as [H|H]; split; intros H'; try discriminate;
    try reflexivity; try (exfalso; apply H); lra.
Qed.

Lemma gestureOf_spec n :
  (gestureOf n = OPEN <-> 4 <= n) /\
  (gestureOf n = CLOSED <-> n <= 1) /\
  (gestureOf n = AMBIGUOUS <-> 1 < n < 4).
Proof.
  unfold gestureOf.
  destruct (Z.leb_spec 4 n), (Z.leb_spec n 1);
    repeat split; intros; try discriminate; try reflexivity; lia.
Qed.

(** C3.  On a full hand (21 landmarks), each of the four fingers counts
    as extended exactly when its tip is further from the wrist than 1.5
    times its base, the thumb exactly when its tip is further than 1.2
    times its base; [extendedFingers] is the number of those that count;
    and the frame is OPEN exactly when that number is at least 4, CLOSED
    exactly when it is at most 1, and AMBIGUOUS otherwise. *)
Theorem classifier_counts_and_thresholds
    (landmarks : list Landmark) (others : list (list Landmark)) :
  length landmarks = 21%nat ->
  exists index middle ring pinky thumb : bool,
    (index = true <-> Spec.extended 1.5 landmarks 8 5) /\
    (middle = true <-> Spec.extended 1.5 landmarks 12 9) /\
    (ring = true <-> Spec.extended 1.5 landmarks 16 13) /\
    (pinky = true <-> Spec.extended 1.5 landmarks 20 17) /\
    (thumb = true <-> Spec.extended 1.2 landmarks 4 2) /\
    let extendedFingers :=
      Z.b2z index + Z.b2z middle + Z.b2z ring + Z.b2z pinky + Z.b2z thumb in
    countExtended landmarks = Some extendedFingers /\
    exists g,
      classifyFrame (Some (landmarks :: others)) = Some (Hand g) /\
      (g = OPEN <-> 4 <= extendedFingers) /\
      (g = CLOSED <-> extendedFingers <= 1) /\
      (g = AMBIGUOUS <-> 1 < extendedFingers < 4).
Proof.
  intros Hlen.
  assert (Hget : forall i, (i < 21)%nat -> is_Some (landmarks !! i)).
  { intros i Hi. apply lookup_lt_is_Some. lia. }
  destruct (Hget 0%nat) as [w Hw]; [lia|].
  destruct (Hget 2%nat) as [b0 Hb0]; [lia|].
  destruct (Hget 4%nat) as [t0 Ht0]; [lia|].
  destruct (Hget 5%nat) as [b1 Hb1]; [lia|].
  destruct (Hget 8%nat) as [t1 Ht1]; [lia|].
  destruct (Hget 9%nat) as [b2 Hb2]; [lia|].
  destruct (Hget 12%nat) as [t2 Ht2]; [lia|].
  destruct (Hget 13%nat) as [b3 Hb3]; [lia|].
  destruct (Hget 16%nat) as [t3 Ht3]; [lia|].
  destruct (Hget 17%nat) as [b4 Hb4]; [lia|].
  destruct (Hget 20%nat) as [t4 Ht4]; [lia|].
  assert (Hext : forall ratio tip base t b,
            landmarks !! tip = Some t -> landmarks !! base = Some b ->
            fingerExtended w t b ratio = true <->
            Spec.extended ratio landmarks tip base).
  { intros ratio tip base t b Ht Hb. rewrite fingerExtended_spec. split.
    - intros H. exists w, t, b. auto.
    - unfold Spec.extended. intros (w' & t' & b' & Hw' & Ht' & Hb' & H).
      rewrite Hw in Hw'. rewrite Ht in Ht'. rewrite Hb in Hb'.
      injection Hw' as <-. injection Ht' as <-. injection Hb' as <-.
      exact H. }
  exists (fingerExtended w t1 b1 1.5), (fingerExtended w t2 b2 1.5),
         (fingerExtended w t3 b3 1.5), (fingerExtended w t4 b4 1.5),
         (fingerExtended w t0 b0 1.2).
  do 5 (split; [now apply Hext|]).
  assert (Hcount : countExtended landmarks = Some
            (Z.b2z (fingerExtended w t1 b1 1.5) + Z.b2z (fingerExtended w t2 b2 1.5)
             + Z.b2z (fingerExtended w t3 b3 1.5) + Z.b2z (fingerExtended w t4 b4 1.5)
             + Z.b2z (fingerExtended w t0 b0 1.2))).
  { unfold countExtended, fingerTips, fingerBases.
    cbn [zip zip_with fingerLoop].
    rewrite Hw, Hb1, Hb2, Hb3, Hb4. cbn [mbind option_bind].
    rewrite Ht1, Ht2, Ht3, Ht4, Ht0, Hb0. cbn [mbind option_bind].
    destruct (fingerExtended w t1 b1 1.5), (fingerExtended w t2 b2 1.5),
             (fingerExtended w t3 b3 1.5), (fingerExtended w t4 b4 1.5),
             (fingerExtended w t0 b0 1.2); reflexivity. }
  cbv zeta. split; [exact Hcount|].
  eexists. split.
  - cbn [classifyFrame]. rewrite Hcount. reflexivity.
  - apply gestureOf_spec.
Qed.

Lemma classifier_counts_and_thresholds_witness :
  exists index middle ring pinky thumb : bool,
    (index = true <-> Spec.extended 1.5 Samples.openHand 8 5) /\
    (middle = true <-> Spec.extended 1.5 Samples.openHand 12 9) /\
    (ring = true <-> Spec.extended 1.5 Samples.openHand 16 13) /\
    (pinky = true <-> Spec.extended 1.5 Samples.openHand 20 17) /\
    (thumb = true <-> Spec.extended 1.2 Samples.openHand 4 2) /\
    let extendedFingers :=
      Z.b2z index + Z.b2z middle + Z.b2z ring + Z.b2z pinky + Z.b2z thumb in
    countExtended Samples.openHand = Some extendedFingers /\
    exists g,
      classifyFrame (Some (Samples.openHand :: [])) = Some (Hand g) /\
      (g = OPEN <-> 4 <= extendedFingers) /\
      (g = CLOSED <-> extendedFingers <= 1) /\
      (g = AMBIGUOUS <-> 1 < extendedFingers < 4).
Proof.
  apply (classifier_counts_and_thresholds Samples.openHand []).
  reflexivity.
Defined.

Lemma hypot_axis a : (0 <= a)%R -> JS.hypot (a - 0) (0 - 0) = a.
Proof.
  intros Ha. unfold JS.hypot.
  replace ((a - 0) * (a - 0) + (0 - 0) * (0 - 0))%R with (a * a)%R by ring.
  now apply sqrt_square.
Qed.

Lemma fingerExtended_at_x tip base ratio :
  (0 <= tip)%R -> (0 <= base)%R ->
  fingerExtended (Samples.at_x 0) (Samples.at_x tip) (Samples.at_x base) ratio
  = JS.gtb tip (base * ratio).
Proof.
  intros Ht Hb. unfold fingerExtended. cbn [x y Samples.at_x].
  now rewrite !hypot_axis.
Qed.

(** The sample hands fall on the two sides of the thresholds. *)
Example openHand_is_OPEN :
  classifyFrame (Some [Samples.openHand]) = Some (Hand OPEN).
Proof.
  unfold classifyFrame, countExtended, fingerTips, fingerBases.
  cbn -[fingerExtended gestureOf].
  rewrite !fingerExtended_at_x by lra.
  unfold JS.gtb.
  repeat (destruct (Rgt_dec _ _) as [?|Hn]; [|exfalso; apply Hn; lra]).
  reflexivity.
Qed.

Example fist_is_CLOSED :
  classifyFrame (Some [Samples.fist]) = Some (Hand CLOSED).
Proof.
  unfold classifyFrame, countExtended, fingerTips, fingerBases.
  cbn -[fingerExtended gestureOf].
  rewrite !fingerExtended_at_x by lra.
  unfold JS.gtb.
  repeat (destruct (Rgt_dec _ _) as [Hn|?]; [exfalso; lra|]).
  reflexivity.
Qed.

(** Held in front of the camera, the open hand flips a formed tree on
    its sixth frame and not before. *)
Example openHand_six_frames :
  snd <$> webcam (replicate 5 (Some [Samples.openHand])) (mount FORMED)
    = Some [] /\
  snd <$> webcam (replicate 6 (Some [Samples.openHand])) (mount FORMED)
    = Some [CHAOS].
Proof.
  rewrite !webcam_feed. cbn [replicate mapM].
  rewrite !openHand_is_OPEN. split; reflexivity.
Qed.

End Classifier.

(** ** The photo spread layout *)

Section Spread.

Import GestureController.
Local Open Scope R_scope.

(** A point written in polar form lies at its radius from the axis. *)
Lemma polar_radius a r :
  0 <= r -> sqrt (cos a * r * (cos a * r) + sin a * r * (sin a * r)) = r.
Proof.
  intros Hr.
  replace (cos a * r * (cos a * r) + sin a * r * (sin a * r))
    with ((Rsqr (sin a) + Rsqr (cos a)) * (r * r)) by (unfold Rsqr; ring).
  rewrite sin2_cos2, Rmult_1_l. now apply sqrt_square.
Qed.

Lemma spreadLoop_map count opts todo i arr :
  spreadLoop count opts todo i arr =
  arr ++ map (spreadEntry count opts) (seq i todo).
Proof.
  revert i arr. induction todo as [|todo IH]; intros i arr; simpl.
  - now rewrite app_nil_r.
  - rewrite IH, <- app_assoc. reflexivity.
Qed.

Lemma getUnleashSpreadPositions_map count opts :
  getUnleashSpreadPositions count opts =
  map (spreadEntry count opts) (seq 0 count).
Proof. unfold getUnleashSpreadPositions. now rewrite spreadLoop_map. Qed.

Lemma spreadEntry_radial count opts i :
  let radiusBase := optOr opts radiusBase 7 in
  let radiusMax := optOr opts radiusMax 12 in
  let easing := optOr opts easing 1 in
  0 <= radiusBase <= radiusMax -> 0 <= easing ->
  radiusBase * easing <= Spec.radialXZ (spreadEntry count opts i)
                      <= radiusMax * easing.
Proof.
  intros rb rM e Hr He.
  unfold Spec.radialXZ, spreadEntry. cbn [x z]. fold rb rM e.
  pose proof (pseudoRandom_range (Z.of_nat i + 77)) as Hp.
  set (p := pseudoRandom (Z.of_nat i + 77)) in *.
  assert (Hq : 0 <= p * (rM - rb) <= rM - rb).
  { split; [apply Rmult_le_pos; lra|].
    rewrite <- (Rmult_1_l (rM - rb)) at 2.
    apply Rmult_le_compat_r; lra. }
  set (q := p * (rM - rb)) in *.
  assert (Hlo : rb * e <= (rb + q) * e) by (apply Rmult_le_compat_r; lra).
  assert (Hhi : (rb + q) * e <= rM * e) by (apply Rmult_le_compat_r; lra).
  assert (H0 : 0 <= rb * e) by (apply Rmult_le_pos; lra).
  rewrite polar_radius by lra.
  lra.
Qed.

Lemma spreadTheta_inj count i j :
  (1 <= count)%nat -> spreadTheta count i = spreadTheta count j -> i = j.
Proof.
  intros Hc H. unfold spreadTheta, Rdiv in H.
  assert (Hinv : 0 < / INR count).
  { apply Rinv_0_lt_compat. apply lt_0_INR. lia. }
  pose proof PI_RGT_0 as Hpi.
  apply INR_eq.
  apply Rmult_eq_reg_r with (/ INR count * PI * 2); [lra|nra].
Qed.

(** C8, as the code has it.  For a count of at least 1 and options whose
    radii, once the defaults are filled in, satisfy
    [0 <= radiusBase <= radiusMax] and whose easing is not negative, the
    layout has exactly [count] entries, each at a radial distance in the XZ
    plane between [radiusBase * easing] and [radiusMax * easing], and no
    two entries have the same raw angle [(i / count) * 2 * PI]. *)
Theorem spread_layout_within_ring (count : nat) (opts : option SpreadOpts) :
  (1 <= count)%nat ->
  0 <= optOr opts radiusBase 7 <= optOr opts radiusMax 12 ->
  0 <= optOr opts easing 1 ->
  Spec.spreadLayoutOk count opts.
Proof.
  intros Hc Hr He. unfold Spec.spreadLayoutOk.
  rewrite getUnleashSpreadPositions_map. split; [|split].
  - now rewrite length_map, length_seq.
  - intros p Hp. apply list_elem_of_fmap in Hp as (i & -> & _).
    now apply spreadEntry_radial.
  - intros i j _ _ Hij Heq. apply Hij. now apply (spreadTheta_inj count).
Qed.

Lemma spread_layout_within_ring_witness : Spec.spreadLayoutOk 22 None.
Proof.
  apply (spread_layout_within_ring 22 None).
  - lia.
  - cbn. lra.
  - cbn. lra.
Defined.

(** The claim does not hold for every options record: with a floor of 10
    and a ceiling of 5 the single entry would have to lie at a distance
    that is at least 10 and at most 5. *)
Lemma spread_layout_inverted_radii :
  ~ Spec.spreadLayoutOk 1 (Some Samples.invertedRadii).
Proof.
  unfold Spec.spreadLayoutOk. intros (_ & Hring & _).
  assert (Hin : spreadEntry 1 (Some Samples.invertedRadii) 0
                ∈ getUnleashSpreadPositions 1 (Some Samples.invertedRadii)).
  { rewrite getUnleashSpreadPositions_map. cbn [seq map].
    apply list_elem_of_singleton. reflexivity. }
  assert (H : 10 * 1 <= Spec.radialXZ (spreadEntry 1 (Some Samples.invertedRadii) 0)
              <= 5 * 1) by exact (Hring _ Hin).
  lra.
Qed.

End Spread.

(** ** The progress update *)

Section Progress.

Import Foliage.
Local Open Scope R_scope.

Lemma useFrame_FORMED delta p :
  useFrame FORMED delta p = p + (1 - p) * (delta * 1.5).
Proof. unfold useFrame, Three.lerp. simpl. ring. Qed.

Lemma useFrame_CHAOS delta p :
  useFrame CHAOS delta p = p - p * (delta * 1.5).
Proof. unfold useFrame, Three.lerp. simpl. ring. Qed.

(** With a blend weight between 0 and 1 a frame keeps the progress in the
    unit interval, whatever the mode. *)
Lemma useFrame_unit_interval mode delta p :
  0 <= delta * 1.5 <= 1 -> 0 <= p <= 1 -> 0 <= useFrame mode delta p <= 1.
Proof.
  intros Ht Hp. destruct mode.
  - rewrite useFrame_CHAOS. nra.
  - rewrite useFrame_FORMED. nra.
Qed.

Lemma useFrame_FORMED_step delta p :
  0 <= delta * 1.5 <= 1 -> 0 <= p <= 1 ->
  p <= useFrame FORMED delta p <= 1.
Proof. intros Ht Hp. rewrite useFrame_FORMED. nra. Qed.

Lemma trace_bounded deltas p :
  Forall (fun delta => 0 <= delta * 1.5 <= 1) deltas -> 0 <= p <= 1 ->
  Forall (fun q => 0 <= q <= 1) (progressTrace FORMED deltas p).
Proof.
  intros Hd. revert p. induction Hd as [|delta deltas Ht _ IH]; intros p Hp.
  - constructor.
  - cbn [progressTrace]. pose proof (useFrame_FORMED_step delta p Ht Hp).
    constructor; [lra|]. apply IH. lra.
Qed.

Lemma trace_approaches deltas p :
  Forall (fun delta => 0 <= delta * 1.5 <= 1) deltas -> 0 <= p <= 1 ->
  Spec.approaches 1 p (progressTrace FORMED deltas p).
Proof.
  intros Hd. revert p. induction Hd as [|delta deltas Ht _ IH]; intros p Hp.
  - exact I.
  - cbn [progressTrace Spec.approaches].
    pose proof (useFrame_FORMED_step delta p Ht Hp). split.
    + rewrite !Rabs_pos_eq by lra. lra.
    + apply IH. lra.
Qed.

Lemma last_nonempty {A} (a : A) l d d' :
  List.last (a :: l) d = List.last (a :: l) d'.
Proof.
  revert a. induction l as [|b l IH]; intros a; [reflexivity|].
  change (List.last (b :: l) d = List.last (b :: l) d'). apply IH.
Qed.

Lemma progressAfter_cons mode delta deltas p :
  progressAfter mode (delta :: deltas) p =
  progressAfter mode deltas (useFrame mode delta p).
Proof.
  unfold progressAfter. cbn [progressTrace].
  destruct deltas as [|delta' deltas]; [reflexivity|].
  cbn [progressTrace].
  change (List.last (?a :: ?b :: ?l) ?d) with (List.last (b :: l) d).
  apply last_nonempty.
Qed.

(** The gap to 1 shrinks at least exponentially in the elapsed time. *)
Lemma gap_exponential deltas p :
  Forall (fun delta => 0 <= delta * 1.5 <= 1) deltas -> 0 <= p <= 1 ->
  0 <= 1 - progressAfter FORMED deltas p
    <= (1 - p) * exp (- (1.5 * elapsed deltas)).
Proof.
  intros Hd. revert p. induction Hd as [|delta deltas Ht _ IH]; intros p Hp.
  - unfold progressAfter, elapsed. cbn.
    replace (- (1.5 * 0)) with 0 by ring. rewrite exp_0. lra.
  - rewrite progressAfter_cons.
    pose proof (useFrame_FORMED_step delta p Ht Hp) as Hs.
    specialize (IH (useFrame FORMED delta p) ltac:(lra)).
    unfold elapsed in *. cbn [foldr].
    replace (- (1.5 * (delta + foldr Rplus 0 deltas)))
      with (- (delta * 1.5) + - (1.5 * foldr Rplus 0 deltas)) by ring.
    rewrite exp_plus.
    pose proof (exp_ineq1_le (- (delta * 1.5))) as He.
    pose proof (exp_pos (- (1.5 * foldr Rplus 0 deltas))) as Hpos.
    set (E := exp (- (1.5 * foldr Rplus 0 deltas))) in *.
    set (e := exp (- (delta * 1.5))) in *.
    split; [lra|].
    apply Rle_trans with ((1 - useFrame FORMED delta p) * E); [lra|].
    rewrite useFrame_FORMED.
    replace (1 - (p + (1 - p) * (delta * 1.5)))
      with ((1 - p) * (1 - delta * 1.5)) by ring.
    rewrite <- Rmult_assoc. apply Rmult_le_compat_r; [lra|].
    apply Rmult_le_compat_l; lra.
Qed.

Lemma exp_7_5_small x : 7.5 <= x -> exp (- x) <= 0.01.
Proof.
  intros Hx.
  assert (H2 : 2 <= exp 1) by (pose proof (exp_ineq1_le 1); lra).
  assert (H7 : exp 7 = exp 1 * exp 1 * exp 1 * exp 1 * exp 1 * exp 1 * exp 1).
  { rewrite <- !exp_plus. f_equal. ring. }
  assert (H128 : 128 <= exp 7).
  { rewrite H7. set (e := exp 1) in *.
    assert (4 <= e * e) by nra.
    assert (8 <= e * e * e) by nra.
    assert (16 <= e * e * e * e) by nra.
    assert (32 <= e * e * e * e * e) by nra.
    assert (64 <= e * e * e * e * e * e) by nra.
    nra. }
  assert (Hx7 : exp 7 <= exp x).
  { destruct (Req_dec x 7) as [->|Hne]; [lra|].
    left. apply exp_increasing. lra. }
  rewrite exp_Ropp.
  apply Rle_trans with (/ 128); [|lra].
  apply Rinv_le_contravar; lra.
Qed.

(** C2, as the code has it.  With every frame's blend weight
    [deltaTime * 1.5] between 0 and 1 (a [deltaTime] of at most 2/3 s), a
    progress that starts at 0 while the mode is FORMED stays between 0 and
    1 on every frame, never moves away from 1, and is within 0.01 of 1
    once 5 seconds have passed. *)
Theorem progress_within_unit_interval (deltas : list R) :
  Forall (fun delta => 0 <= delta * 1.5 <= 1) deltas ->
  Spec.progressOk 5 deltas.
Proof.
  intros Hd. unfold Spec.progressOk. cbv zeta. split; [|split].
  - apply trace_bounded; [exact Hd|lra].
  - apply trace_approaches; [exact Hd|lra].
  - intros Ht.
    pose proof (gap_exponential deltas 0 Hd ltac:(lra)) as [Hlo Hhi].
    pose proof (exp_7_5_small (1.5 * elapsed deltas) ltac:(lra)) as He.
    rewrite Rabs_pos_eq by exact Hlo. lra.
Qed.

Lemma progress_within_unit_interval_witness :
  Spec.progressOk 5 (replicate 12 0.5).
Proof.
  apply (progress_within_unit_interval (replicate 12 0.5)).
  repeat constructor; lra.
Defined.

(** The claim does not hold for every non-negative [deltaTime]: a single
    frame of one second takes the progress from 0 to 1.5. *)
Lemma progress_overshoots_after_long_frame :
  Forall (fun delta => 0 <= delta) [1] /\
  useFrame FORMED 1 0 = 1.5 /\
  forall settle, ~ Spec.progressOk settle [1].
Proof.
  assert (H : useFrame FORMED 1 0 = 1.5).
  { rewrite useFrame_FORMED. lra. }
  split; [repeat constructor; lra|]. split; [exact H|].
  intros settle (Hb & _). cbn [progressTrace] in Hb.
  apply Forall_cons_1 in Hb as [Hb _]. rewrite H in Hb. lra.
Qed.

End Progress.

(** ** The dual-position generator *)

Section Generator.

Import Foliage.
Local Open Scope R_scope.

(** A division by zero is a failure of the model. *)
Example div_by_zero_fails g : div 1 0 g = None.
Proof. unfold div. destruct (Req_dec_T 0 0) as [_|H]; [reflexivity|lra]. Qed.

Lemma div_nonzero a b g : b <> 0 -> div a b g = Some (a / b, g).
Proof.
  intros Hb. unfold div. destruct (Req_dec_T b 0) as [H|_]; [contradiction|].
  reflexivity.
Qed.

(** One run of the loop body: it returns, uses seven draws, keeps the
    length of the three arrays, writes the polar form of the target of
    particle [i] and leaves the targets of the other particles alone. *)
Lemma particle_run count goldenRatio i b g :
  (i < count)%nat -> length (target b) = (count * 3)%nat ->
  exists b' g',
    particle count goldenRatio i b g = Some (b', g') /\
    draws g' = draws g /\ cursor g' = (cursor g + 7)%nat /\
    length (chaos b') = length (chaos b) /\
    length (target b') = length (target b) /\
    length (rnd b') = length (rnd b) /\
    target b' !! (i * 3)%nat =
      Some (cos (Spec.thetaSpiral count goldenRatio i)
            * Spec.rr count i (draws g (cursor g + 5)%nat)) /\
    target b' !! (i * 3 + 2)%nat =
      Some (sin (Spec.thetaSpiral count goldenRatio i)
            * Spec.rr count i (draws g (cursor g + 5)%nat)) /\
    (forall j, (j < i * 3)%nat -> target b' !! j = target b !! j).
Proof.
  intros Hi Hlen.
  assert (Hc : INR count <> 0) by (apply not_0_INR; lia).
  unfold particle, bind, Math_random, ret. cbn [draws cursor].
  rewrite (div_nonzero _ _ _ Hc). cbn [draws cursor].
  eexists. eexists. split; [reflexivity|]. cbn [draws cursor chaos target rnd].
  split; [reflexivity|]. split; [lia|].
  rewrite !length_insert. do 3 (split; [reflexivity|]).
  replace (S (S (S (S (S (cursor g)))))) with (cursor g + 5)%nat by lia.
  split; [|split].
  - rewrite list_lookup_insert_ne by lia.
    rewrite list_lookup_insert_ne by lia.
    rewrite list_lookup_insert_eq by lia. reflexivity.
  - rewrite list_lookup_insert_eq by (rewrite !length_insert; lia).
    reflexivity.
  - intros j Hj. rewrite !list_lookup_insert_ne by lia. reflexivity.
Qed.

(** The loop from index [i] to [count]: it returns, and the target of
    every particle [k] it handles is in polar form, with the radius jittered
    by the sixth draw of iteration [k]. *)
Lemma forLoop_run count goldenRatio todo : forall i b g,
  (i + todo = count)%nat -> length (target b) = (count * 3)%nat ->
  exists b' g',
    forLoop (particle count goldenRatio) todo i b g = Some (b', g') /\
    draws g' = draws g /\
    length (chaos b') = length (chaos b) /\
    length (target b') = length (target b) /\
    length (rnd b') = length (rnd b) /\
    (forall j, (j < i * 3)%nat -> target b' !! j = target b !! j) /\
    (forall k, (i <= k < count)%nat ->
       let d := draws g (cursor g + 7 * (k - i) + 5)%nat in
       target b' !! (k * 3)%nat =
         Some (cos (Spec.thetaSpiral count goldenRatio k) * Spec.rr count k d) /\
       target b' !! (k * 3 + 2)%nat =
         Some (sin (Spec.thetaSpiral count goldenRatio k) * Spec.rr count k d)).
Proof.
  induction todo as [|todo IH]; intros i b g Hi Hlen.
  - exists b, g. cbn [forLoop]. unfold ret.
    do 5 (split; [reflexivity|]). split; [reflexivity|].
    intros k Hk. lia.
  - cbn [forLoop]. unfold bind at 1.
    destruct (particle_run count goldenRatio i b g ltac:(lia) Hlen)
      as (b1 & g1 & -> & Hd1 & Hc1 & Hlc1 & Hlt1 & Hlr1 & Hx1 & Hz1 & Hold1).
    destruct (IH (S i) b1 g1 ltac:(lia) ltac:(congruence))
      as (b' & g' & -> & Hd & Hlc & Hlt & Hlr & Hold & Hnew).
    exists b', g'. split; [reflexivity|].
    split; [congruence|]. split; [congruence|]. split; [congruence|].
    split; [congruence|]. split.
    + intros j Hj. rewrite Hold by lia. apply Hold1. exact Hj.
    + intros k Hk. cbv zeta.
      destruct (decide (k = i)) as [->|Hne].
      * replace (cursor g + 7 * (i - i) + 5)%nat with (cursor g + 5)%nat by lia.
        rewrite !Hold by lia. split; assumption.
      * specialize (Hnew k ltac:(lia)). cbv zeta in Hnew.
        rewrite Hd1, Hc1 in Hnew.
        replace (cursor g + 7 + 7 * (k - S i) + 5)%nat
          with (cursor g + 7 * (k - i) + 5)%nat in Hnew by lia.
        exact Hnew.
Qed.

Lemma generate_run count g :
  exists b g',
    generate count g = Some (b, g') /\
    length (chaos b) = (count * 3)%nat /\
    length (target b) = (count * 3)%nat /\
    length (rnd b) = count /\
    (forall k, (k < count)%nat ->
       let goldenRatio := (1 + sqrt 5) / 2 in
       let d := draws g (cursor g + 7 * k + 5)%nat in
       target b !! (k * 3)%nat =
         Some (cos (Spec.thetaSpiral count goldenRatio k) * Spec.rr count k d) /\
       target b !! (k * 3 + 2)%nat =
         Some (sin (Spec.thetaSpiral count goldenRatio k) * Spec.rr count k d)).
Proof.
  unfold generate, bind at 1.
  rewrite div_nonzero by lra.
  destruct (forLoop_run count ((1 + sqrt 5) / 2) count 0
              {| chaos := replicate (count * 3) 0;
                 target := replicate (count * 3) 0;
                 rnd := replicate count 0 |} g ltac:(lia))
    as (b & g' & -> & _ & Hlc & Hlt & Hlr & _ & Hnew).
  { cbn [target]. now rewrite length_replicate. }
  cbn [chaos target rnd] in *. rewrite length_replicate in Hlc, Hlt, Hlr.
  exists b, g'. do 4 (split; [first [reflexivity|assumption]|]).
  intros k Hk. specialize (Hnew k ltac:(lia)). cbv zeta in *.
  replace (cursor g + 7 * (k - 0) + 5)%nat
    with (cursor g + 7 * k + 5)%nat in Hnew by lia.
  exact Hnew.
Qed.

(** C4.  For every particle count [N] the generator returns -- no
    division by zero is met, for [N = 1] as for any other count -- a chaos
    array and a target array of [3 N] numbers and an array of [N] random
    factors; for [N = 0] the three arrays are empty. *)
Theorem generate_array_lengths (N : nat) (g : Random) :
  (exists b g',
     generate N g = Some (b, g') /\
     length (chaos b) = (N * 3)%nat /\
     length (target b) = (N * 3)%nat /\
     length (rnd b) = N) /\
  generate 0 g = Some ({| chaos := []; target := []; rnd := [] |}, g) /\
  is_Some (generate 1 g).
Proof.
  split; [|split].
  - destruct (generate_run N g) as (b & g' & Hrun & Hlc & Hlt & Hlr & _).
    exists b, g'. repeat split; assumption.
  - unfold generate, bind. rewrite div_nonzero by lra. reflexivity.
  - destruct (generate_run 1 g) as (b & g' & -> & _). eexists. reflexivity.
Qed.

Lemma Rpower_pos b e : 0 < Rpower b e.
Proof. unfold Rpower. apply exp_pos. Qed.

(** [(1/3) ^ 0.45 < 9/11]: raised to the 20th power the left side is
    [(1/3) ^ 9]. *)
Lemma Rpower_third : Rpower (1 / 3) 0.45 < 9 / 11.
Proof.
  pose proof (Rpower_pos (1 / 3) 0.45) as Hpos.
  set (c := Rpower (1 / 3) 0.45) in *.
  assert (H20 : c ^ 20 = (1 / 3) ^ 9).
  { rewrite <- (Rpower_pow 20 c Hpos). unfold c. rewrite Rpower_mult.
    replace (0.45 * INR 20) with (INR 9) by (simpl; lra).
    apply Rpower_pow. lra. }
  destruct (Rlt_le_dec c (9 / 11)) as [Hlt|Hge]; [exact Hlt|exfalso].
  assert (Hpow : (9 / 11) ^ 20 <= c ^ 20) by (apply pow_incr; lra).
  rewrite H20 in Hpow.
  assert (Hnum : (1 / 3) ^ 9 < (9 / 11) ^ 20).
  { apply Rlt_le_trans with ((1 / 3) ^ 4).
    - simpl. lra.
    - apply Rle_trans with ((9 / 11) ^ 5 * ((9 / 11) ^ 5 * ((9 / 11) ^ 5 * (9 / 11) ^ 5))).
      + assert (H5 : 1 / 3 <= (9 / 11) ^ 5) by (simpl; lra).
        assert (H0 : 0 <= (9 / 11) ^ 5) by (simpl; lra).
        set (q := (9 / 11) ^ 5) in *.
        assert (1 / 3 * (1 / 3) <= q * q) by nra.
        assert (1 / 3 * (1 / 3) * (1 / 3) <= q * (q * q)) by nra.
        simpl. nra.
      + rewrite <- !pow_add. simpl. lra. }
  lra.
Qed.

Lemma diskR_pos count i : 0 < Spec.diskR count i.
Proof.
  unfold Spec.diskR, maxRadius, Math_pow.
  pose proof (Rpower_pos ((INR i + 0.5) / INR count) 0.45). lra.
Qed.

(** A draw in [0, 1) jitters the disk radius by less than a tenth. *)
Lemma rr_bounds count i d :
  0 <= d < 1 ->
  0.9 * Spec.diskR count i <= Spec.rr count i d <= 1.1 * Spec.diskR count i.
Proof.
  intros Hd. unfold Spec.rr. pose proof (diskR_pos count i). nra.
Qed.

(** From two particles on, the jittered radius of the first particle is
    below that of the last, whatever the two draws. *)
Lemma rr_first_last count d0 d1 :
  (2 <= count)%nat -> 0 <= d0 < 1 -> 0 <= d1 < 1 ->
  Spec.rr count 0 d0 < Spec.rr count (count - 1) d1.
Proof.
  intros Hc Hd0 Hd1.
  pose proof (rr_bounds count 0 d0 Hd0) as [_ Hhi].
  pose proof (rr_bounds count (count - 1) d1 Hd1) as [Hlo _].
  assert (Hn : 2 <= INR count) by (apply (le_INR 2); exact Hc).
  assert (Hinv : INR count * / INR count = 1) by (apply Rinv_r; lra).
  assert (Hip : 0 < / INR count) by (apply Rinv_0_lt_compat; lra).
  assert (Hu0 : 0 < (INR 0 + 0.5) / INR count <= 1 / 4).
  { simpl INR. unfold Rdiv. nra. }
  assert (Hu1 : 0 < 3 / 4 <= (INR (count - 1) + 0.5) / INR count).
  { split; [lra|]. rewrite minus_INR by lia. simpl INR. unfold Rdiv. nra. }
  assert (H0 : Spec.diskR count 0 <= 15 * Rpower (1 / 4) 0.45).
  { unfold Spec.diskR, maxRadius, Math_pow.
    pose proof (Rle_Rpower_l _ _ 0.45 ltac:(lra) Hu0). lra. }
  assert (H1 : 15 * Rpower (3 / 4) 0.45 <= Spec.diskR count (count - 1)).
  { unfold Spec.diskR, maxRadius, Math_pow.
    pose proof (Rle_Rpower_l _ _ 0.45 ltac:(lra) Hu1). lra. }
  assert (Hsplit : Rpower (1 / 4) 0.45
                   = Rpower (1 / 3) 0.45 * Rpower (3 / 4) 0.45).
  { rewrite Rpower_mult_distr by lra. f_equal. lra. }
  pose proof Rpower_third as Hc3.
  pose proof (Rpower_pos (1 / 3) 0.45) as Hp3.
  pose proof (Rpower_pos (3 / 4) 0.45) as Hp4.
  rewrite Hsplit in H0.
  set (c := Rpower (1 / 3) 0.45) in *.
  set (q := Rpower (3 / 4) 0.45) in *.
  assert (11 * (c * q) < 9 * q) by nra.
  lra.
Qed.

Lemma radialAt_polar positions k a r :
  0 <= r ->
  positions !! (k * 3)%nat = Some (cos a * r) ->
  positions !! (k * 3 + 2)%nat = Some (sin a * r) ->
  radialAt positions k = r.
Proof.
  intros Hr Hx Hz. unfold radialAt. rewrite Hx, Hz. cbn [default].
  now apply polar_radius.
Qed.

(** C5, as the code has it.  For every particle count [N >= 2] and draws
    of [Math.random] in [0, 1), the generator returns and the radial
    distance of the target of particle 0 is strictly less than that of
    particle [N - 1]. *)
Theorem core_bias_from_two_particles (N : nat) (g : Random) :
  (2 <= N)%nat -> (forall k, 0 <= draws g k < 1) -> Spec.coreBias N g.
Proof.
  intros HN Hdraws.
  destruct (generate_run N g) as (b & g' & Hrun & _ & _ & _ & Hpolar).
  exists b, g'. split; [exact Hrun|].
  destruct (Hpolar 0%nat ltac:(lia)) as [Hx0 Hz0].
  destruct (Hpolar (N - 1)%nat ltac:(lia)) as [Hx1 Hz1].
  cbv zeta in *.
  pose proof (Hdraws (cursor g + 7 * 0 + 5)%nat) as Hd0.
  pose proof (Hdraws (cursor g + 7 * (N - 1) + 5)%nat) as Hd1.
  pose proof (rr_bounds N 0 _ Hd0) as [Hlo0 _].
  pose proof (rr_bounds N (N - 1) _ Hd1) as [Hlo1 _].
  pose proof (diskR_pos N 0). pose proof (diskR_pos N (N - 1)).
  assert (Hr0 : 0 <= Spec.rr N 0 (draws g (cursor g + 7 * 0 + 5)%nat)) by lra.
  assert (Hr1 : 0 <= Spec.rr N (N - 1)
                       (draws g (cursor g + 7 * (N - 1) + 5)%nat)) by lra.
  rewrite (radialAt_polar _ _ _ _ Hr0 Hx0 Hz0).
  rewrite (radialAt_polar _ _ _ _ Hr1 Hx1 Hz1).
  now apply rr_first_last.
Qed.

Lemma core_bias_from_two_particles_witness : Spec.coreBias 2 Samples.halves.
Proof.
  apply (core_bias_from_two_particles 2 Samples.halves).
  - lia.
  - intros k. simpl. lra.
Defined.

(** The claim does not hold for [N = 1]: the first particle is the last
    one, and no radius is strictly less than itself. *)
Lemma core_bias_fails_for_one_particle : ~ Spec.coreBias 1 Samples.halves.
Proof.
  intros (b & g' & _ & H). cbn [Nat.sub] in H.
  exact (Rlt_irrefl _ H).
Qed.

End Generator.

(** ** More on the debouncer *)

Section DebouncerStreams.

Import GestureController.

Lemma feed_closed_held n c :
  lastModeRef c = FORMED ->
  (feed (replicate n (Hand CLOSED)) c).2 = [].
Proof.
  revert c. induction n as [|n IH]; intros c Hc; [reflexivity|].
  destruct (commitGesture_held CLOSED c Hc) as [He Hm].
  cbn [replicate feed frameStep].
  destruct (commitGesture CLOSED c) as [c1 e1]; cbn [fst snd] in *.
  specialize (IH c1 (eq_trans Hm Hc)).
  destruct (feed (replicate n (Hand CLOSED)) c1) as [c2 e2]; cbn [fst snd] in *.
  now subst.
Qed.

(** X1.  The CLOSED arm mirrors the OPEN one: from counters at zero and a
    committed mode other than FORMED, five CLOSED frames call
    [onModeChange] not at all, the sixth calls it once with FORMED, and
    further CLOSED frames add no call. *)
Theorem closed_run_commits_once (c : Controller) (more : nat) :
  openFrames c = 0 -> closedFrames c = 0 -> lastModeRef c <> FORMED ->
  (feed (replicate 5 (Hand CLOSED)) c).2 = [] /\
  (feed (replicate (6 + more) (Hand CLOSED)) c).2 = [FORMED].
Proof.
  destruct c as [o cl m cm]; cbn [openFrames closedFrames lastModeRef].
  intros -> -> Hm. destruct m; [|congruence].
  split; [reflexivity|].
  rewrite replicate_add, feed_app.
  change (feed (replicate 6 (Hand CLOSED))
            {| openFrames := 0; closedFrames := 0;
               lastModeRef := CHAOS; currentMode := cm |})
    with ({| openFrames := 0; closedFrames := 6;
             lastModeRef := FORMED; currentMode := cm |}, [FORMED]).
  pose proof (feed_closed_held more
    {| openFrames := 0; closedFrames := 6;
       lastModeRef := FORMED; currentMode := cm |} eq_refl) as H.
  cbv iota beta.
  destruct (feed (replicate more (Hand CLOSED)) _) as [c2 e2].
  cbn [fst snd] in *. now subst.
Qed.

Lemma closed_run_commits_once_witness :
  (feed (replicate 5 (Hand CLOSED)) (mount CHAOS)).2 = [] /\
  (feed (replicate (6 + 40) (Hand CLOSED)) (mount CHAOS)).2 = [FORMED].
Proof.
  apply (closed_run_commits_once (mount CHAOS) 40).
  - reflexivity.
  - reflexivity.
  - simpl. discriminate.
Defined.

(** One frame either calls [onModeChange] not at all and leaves the
    committed mode, or calls it once with a mode other than the committed
    one, which it then commits. *)
Lemma frameStep_events cl c :
  ((frameStep cl c).2 = [] /\
   lastModeRef (frameStep cl c).1 = lastModeRef c) \/
  (exists m, (frameStep cl c).2 = [m] /\ m <> lastModeRef c /\
             lastModeRef (frameStep cl c).1 = m).
Proof.
  destruct cl as [[| |]|]; simpl; auto.
  - destruct (CONFIDENCE_THRESHOLD <? openFrames c + 1); simpl; auto.
    destruct (lastModeRef c) eqn:E; simpl; auto.
    right. exists CHAOS. repeat split; congruence.
  - destruct (CONFIDENCE_THRESHOLD <? closedFrames c + 1); simpl; auto.
    destruct (lastModeRef c) eqn:E; simpl; auto.
    right. exists FORMED. repeat split; congruence.
Qed.

(** X2.  Whatever the frames and the state they start from, [onModeChange] is
    never called with the mode of the call before it (nor first with the
    mode already committed), and the mode committed at the end is that of
    the last call, or the one committed at the start if there was no
    call. *)
Theorem events_never_repeat (cls : list Classification) (c : Controller) :
  Stream.alternates (lastModeRef c) (feed cls c).2 /\
  lastModeRef (feed cls c).1 = List.last (feed cls c).2 (lastModeRef c).
Proof.
  revert c. induction cls as [|cl cls IH]; intros c; [now split|].
  cbn [feed].
  destruct (frameStep_events cl c) as [[He Hm]|(m & He & Hne & Hm)];
    destruct (frameStep cl c) as [c1 e1]; cbn [fst snd] in *; subst e1;
    specialize (IH c1); destruct (feed cls c1) as [c2 e2];
    cbn [fst snd app] in *; destruct IH as [IHa IHl].
  - rewrite Hm in IHa, IHl. now split.
  - subst m. split; [now split|].
    rewrite IHl. destruct e2 as [|m' e2]; [reflexivity|].
    change (List.last (m' :: e2) (lastModeRef c1)
            = List.last (m' :: e2) (lastModeRef c)).
    apply last_nonempty.
Qed.

End DebouncerStreams.

Section DebouncerRuns.

Import GestureController.

Lemma runLength_app g cls1 cls2 n :
  Stream.runLength g (cls1 ++ cls2) n =
  Stream.runLength g cls2 (Stream.runLength g cls1 n).
Proof.
  revert n. induction cls1 as [|[g'|] cls1 IH]; intros n; cbn; auto.
Qed.

(** Neither counter ever exceeds the number of frames of its gesture seen
    since the last frame that showed another gesture. *)
Lemma counters_le_runLength cls : forall c no nc,
  0 <= no -> 0 <= nc -> openFrames c <= no -> closedFrames c <= nc ->
  openFrames (feed cls c).1 <= Stream.runLength OPEN cls no /\
  closedFrames (feed cls c).1 <= Stream.runLength CLOSED cls nc.
Proof.
  induction cls as [|cl cls IH]; intros c no nc Hno Hnc Ho Hc; [now split|].
  cbn [feed].
  assert (H1 : exists no' nc',
    0 <= no' /\ 0 <= nc' /\
    openFrames (frameStep cl c).1 <= no' /\
    closedFrames (frameStep cl c).1 <= nc' /\
    Stream.runLength OPEN (cl :: cls) no = Stream.runLength OPEN cls no' /\
    Stream.runLength CLOSED (cl :: cls) nc = Stream.runLength CLOSED cls nc').
  { destruct cl as [[| |]|]; cbn [Stream.runLength Stream.Gesture_eqb].
    - exists (no + 1), 0. cbn.
      destruct (CONFIDENCE_THRESHOLD <? openFrames c + 1);
        [destruct (negb (TreeMode_eqb (lastModeRef c) CHAOS))|]; cbn;
        repeat split; lia.
    - exists 0, (nc + 1). cbn.
      destruct (CONFIDENCE_THRESHOLD <? closedFrames c + 1);
        [destruct (negb (TreeMode_eqb (lastModeRef c) FORMED))|]; cbn;
        repeat split; lia.
    - exists 0, 0. cbn. repeat split; lia.
    - exists no, nc. cbn. repeat split; lia. }
  destruct H1 as (no' & nc' & Hno' & Hnc' & Ho' & Hc' & -> & ->).
  destruct (frameStep cl c) as [c1 e1]. cbn [fst] in *.
  specialize (IH c1 no' nc' Hno' Hnc' Ho' Hc').
  now destruct (feed cls c1) as [c2 e2].
Qed.

(** X3.  A frame on which [onModeChange] is called is at least the sixth frame
    of its gesture since the last frame showing another gesture: a call
    with CHAOS comes on an OPEN frame, a call with FORMED on a CLOSED
    one.  Frames without a hand are not counted and do not break the
    run. *)
Theorem transition_needs_six_frames
    (cls : list Classification) (cl : Classification)
    (c : Controller) (m : TreeMode) :
  openFrames c = 0 -> closedFrames c = 0 ->
  m ∈ (frameStep cl (feed cls c).1).2 ->
  (m = CHAOS /\ cl = Hand OPEN /\
   6 <= Stream.runLength OPEN (cls ++ [cl]) 0) \/
  (m = FORMED /\ cl = Hand CLOSED /\
   6 <= Stream.runLength CLOSED (cls ++ [cl]) 0).
Proof.
  intros Ho Hc Hm.
  destruct (counters_le_runLength cls c 0 0) as [Hro Hrc]; try lia.
  rewrite !runLength_app.
  set (c' := (feed cls c).1) in *. clearbody c'.
  destruct cl as [[| |]|]; cbn in Hm.
  - left. unfold CONFIDENCE_THRESHOLD in Hm.
    destruct (Z.ltb_spec 5 (openFrames c' + 1)) as [Hlt|_];
      [destruct (negb (TreeMode_eqb (lastModeRef c') CHAOS))|];
      cbn in Hm; try (apply elem_of_nil in Hm; contradiction).
    apply list_elem_of_singleton in Hm. cbn. repeat split; [assumption|lia].
  - right. unfold CONFIDENCE_THRESHOLD in Hm.
    destruct (Z.ltb_spec 5 (closedFrames c' + 1)) as [Hlt|_];
      [destruct (negb (TreeMode_eqb (lastModeRef c') FORMED))|];
      cbn in Hm; try (apply elem_of_nil in Hm; contradiction).
    apply list_elem_of_singleton in Hm. cbn. repeat split; [assumption|lia].
  - apply elem_of_nil in Hm. contradiction.
  - apply elem_of_nil in Hm. contradiction.
Qed.

Lemma transition_needs_six_frames_witness :
  (CHAOS = CHAOS /\ Hand OPEN = Hand OPEN /\
   6 <= Stream.runLength OPEN
          ([Hand OPEN; Hand OPEN; NONE; Hand OPEN; Hand OPEN; Hand OPEN;
            Hand OPEN] ++ [Hand OPEN]) 0) \/
  (CHAOS = FORMED /\ Hand OPEN = Hand CLOSED /\
   6 <= Stream.runLength CLOSED
          ([Hand OPEN; Hand OPEN; NONE; Hand OPEN; Hand OPEN; Hand OPEN;
            Hand OPEN] ++ [Hand OPEN]) 0).
Proof.
  apply (transition_needs_six_frames
           [Hand OPEN; Hand OPEN; NONE; Hand OPEN; Hand OPEN; Hand OPEN;
            Hand OPEN] (Hand OPEN) (mount FORMED) CHAOS).
  - reflexivity.
  - reflexivity.
  - vm_compute. apply list_elem_of_here.
Defined.

(** A thousand frames alternating OPEN and CLOSED call [onModeChange]
    not at all. *)
Example alternating_frames_are_quiet :
  (feed (concat (replicate 500 [Hand OPEN; Hand CLOSED])) (mount FORMED)).2
  = [].
Proof. vm_compute. reflexivity. Qed.

Lemma feed_none_run k o cl m cm :
  0 <= o -> 0 <= cl ->
  feed (replicate k NONE)
    {| openFrames := o; closedFrames := cl;
       lastModeRef := m; currentMode := cm |}
  = ({| openFrames := Z.max 0 (o - Z.of_nat k);
        closedFrames := Z.max 0 (cl - Z.of_nat k);
        lastModeRef := m; currentMode := cm |}, []).
Proof.
  revert o cl. induction k as [|k IH]; intros o cl Ho Hcl.
  - cbn. f_equal. f_equal; lia.
  - cbn [replicate feed frameStep noHand openFrames closedFrames
         lastModeRef currentMode].
    rewrite IH by lia. cbn [app]. f_equal. f_equal; lia.
Qed.

End DebouncerRuns.

Section DebouncerGaps.

Import GestureController.

Lemma feed_open_pending n o cl cm :
  0 <= o -> o + Z.of_nat n <= 5 -> (n = 0%nat -> cl = 0) ->
  feed (replicate n (Hand OPEN))
    {| openFrames := o; closedFrames := cl;
       lastModeRef := FORMED; currentMode := cm |}
  = ({| openFrames := o + Z.of_nat n; closedFrames := 0;
        lastModeRef := FORMED; currentMode := cm |}, []).
Proof.
  revert o cl. induction n as [|n IH]; intros o cl Ho Hn Hcl.
  - rewrite Hcl by reflexivity. cbn. f_equal. f_equal. lia.
  - cbn [replicate feed frameStep commitGesture openFrames closedFrames
         lastModeRef currentMode].
    unfold CONFIDENCE_THRESHOLD.
    destruct (Z.ltb_spec 5 (o + 1)) as [Hlt|_]; [lia|].
    rewrite IH by lia. cbn [app]. f_equal. f_equal. lia.
Qed.

Lemma feed_open_from m o cl cm :
  0 <= o <= 5 ->
  (feed (replicate m (Hand OPEN))
     {| openFrames := o; closedFrames := cl;
        lastModeRef := FORMED; currentMode := cm |}).2
  = if 5 <? o + Z.of_nat m then [CHAOS] else [].
Proof.
  revert o cl. induction m as [|m IH]; intros o cl Ho.
  - cbn [replicate feed snd].
    destruct (Z.ltb_spec 5 (o + Z.of_nat 0)); [lia|reflexivity].
  - cbn [replicate feed frameStep commitGesture openFrames closedFrames
         lastModeRef currentMode].
    unfold CONFIDENCE_THRESHOLD.
    destruct (Z.ltb_spec 5 (o + 1)) as [Hlt|Hle].
    + cbn [TreeMode_eqb negb].
      pose proof (feed_open_held m
        {| openFrames := o + 1; closedFrames := 0;
           lastModeRef := CHAOS; currentMode := cm |} eq_refl) as H.
      destruct (feed (replicate m (Hand OPEN)) _) as [c2 e2].
      cbn [snd] in *. subst e2.
      destruct (Z.ltb_spec 5 (o + Z.of_nat (S m))); [reflexivity|lia].
    + specialize (IH (o + 1) 0 ltac:(lia)).
      destruct (feed (replicate m (Hand OPEN)) _) as [c2 e2].
      cbn [snd app] in *. rewrite IH.
      replace (o + 1 + Z.of_nat m) with (o + Z.of_nat (S m)) by lia.
      reflexivity.
Qed.

(** X4.  Frames without a hand wear a run down without breaking it.  From
    counters at zero and a committed mode other than CHAOS, [n <= 5] OPEN
    frames, then [k] frames without a hand, then [m] OPEN frames call
    [onModeChange] once, with CHAOS, exactly when what the gap left of the
    first run, [max 0 (n - k)], and the second run together exceed 5; and
    not at all otherwise. *)
Theorem dropped_frames_wear_the_run_down (c : Controller) (n k m : nat) :
  openFrames c = 0 -> closedFrames c = 0 -> lastModeRef c <> CHAOS ->
  (n <= 5)%nat ->
  (feed (replicate n (Hand OPEN) ++ replicate k NONE
         ++ replicate m (Hand OPEN)) c).2
  = if 5 <? Z.max 0 (Z.of_nat n - Z.of_nat k) + Z.of_nat m
    then [CHAOS] else [].
Proof.
  destruct c as [o cl md cm]; cbn [openFrames closedFrames lastModeRef].
  intros -> -> Hmd Hn. destruct md; [congruence|].
  rewrite feed_app, feed_open_pending by (try reflexivity; lia).
  rewrite feed_app, feed_none_run by lia.
  pose proof (feed_open_from m (Z.max 0 (0 + Z.of_nat n - Z.of_nat k))
                (Z.max 0 (0 - Z.of_nat k)) cm ltac:(lia)) as H.
  destruct (feed (replicate m (Hand OPEN)) _) as [c2 e2].
  cbn [snd app] in *. rewrite H. reflexivity.
Qed.

Lemma dropped_frames_wear_the_run_down_witness :
  (feed (replicate 5 (Hand OPEN) ++ replicate 2 NONE
         ++ replicate 3 (Hand OPEN)) (mount FORMED)).2
  = if 5 <? Z.max 0 (Z.of_nat 5 - Z.of_nat 2) + Z.of_nat 3
    then [CHAOS] else [].
Proof.
  apply (dropped_frames_wear_the_run_down (mount FORMED) 5 2 3).
  - reflexivity.
  - reflexivity.
  - simpl. discriminate.
  - lia.
Defined.

End DebouncerGaps.

(** ** Landmarks that are missing, and the reported hand position *)

Section Landmarks.

Import GestureController.

Lemma fingerLoop_needs_last landmarks wrist n :
  landmarks !! 20%nat = None ->
  fingerLoop landmarks wrist (zip fingerTips fingerBases) n = None.
Proof.
  intros H20. unfold fingerTips, fingerBases. cbn [zip zip_with fingerLoop].
  rewrite H20.
  repeat (match goal with
          | |- context [mbind _ (?l !! ?i)] =>
              destruct (l !! i); cbn [mbind option_bind]
          end; try reflexivity).
Qed.

(** X5.  [detectGesture] returns exactly on the hands that have 21 landmarks
    or more: with fewer, reading a landmark past the end throws. *)
Theorem detectGesture_needs_21_landmarks
    (landmarks : list Landmark) (c : Controller) :
  is_Some (detectGesture landmarks c) <-> (21 <= length landmarks)%nat.
Proof.
  split.
  - intros [r Hr].
    destruct (decide (21 <= length landmarks)%nat) as [|Hshort]; [assumption|].
    exfalso.
    assert (H20 : landmarks !! 20%nat = None) by (apply lookup_ge_None; lia).
    unfold detectGesture, countExtended in Hr.
    repeat (match type of Hr with
            | context [mbind _ (?l !! ?i)] =>
                destruct (l !! i); cbn [mbind option_bind] in Hr
            end; try discriminate);
      rewrite (fingerLoop_needs_last _ _ _ H20) in Hr; discriminate.
  - intros Hlen.
    assert (Hget : forall i, (i < 21)%nat -> is_Some (landmarks !! i)).
    { intros i Hi. apply lookup_lt_is_Some. lia. }
    unfold detectGesture, countExtended, fingerTips, fingerBases.
    cbn [zip zip_with fingerLoop].
    repeat (match goal with
            | |- context [mbind _ (?l !! ?i)] =>
                let v := fresh "v" in
                destruct (Hget i ltac:(lia)) as [v ->];
                cbn [mbind option_bind]
            end).
    eexists. reflexivity.
Qed.

End Landmarks.

Section ReportedPosition.

Import GestureController HandPosition.
Local Open Scope R_scope.





(** A hand that lacks landmark 20 is not: the connection from 19 to 20
    reads it. *)
Lemma strokes_None (landmarks : list Landmark) cs :
  Exists (fun c => landmarks !! c.1 = None \/ landmarks !! c.2 = None) cs ->
  strokes landmarks cs = None.
Proof.
  induction 1 as [[start end'] cs [H|H]|[start end'] cs _ IH];
    cbn [strokes]; cbn [fst snd] in *.
  - rewrite H. reflexivity.
  - rewrite H. destruct (landmarks !! start); reflexivity.
  - rewrite IH.
    destruct (landmarks !! start); [|reflexivity].
    destruct (landmarks !! end'); reflexivity.
Qed.

Lemma drawSingleHandSkeleton_None (landmarks : list Landmark) :
  (length landmarks < 21)%nat -> drawSingleHandSkeleton landmarks = None.
Proof.
  intros Hlen. apply strokes_None. unfold connections.
  do 19 apply Exists_cons_tl. apply Exists_cons_hd. right. cbn [snd].
  apply lookup_ge_None. lia.
Qed.

(** With the overlay mounted, a frame in which some hand has fewer than 21
    landmarks throws in [drawAllHands], before any position is handed
    on. *)
Lemma short_hand_stops_the_frame (first : list Landmark) rest hand :
  hand ∈ first :: rest -> (length hand < 21)%nat ->
  onHandPosition true (Some (first :: rest)) = None.
Proof.
  intros Hin Hlen.
  assert (Hdraw : drawEach (first :: rest) = None).
  { revert Hin. generalize (first :: rest). intros hands.
    induction hands as [|h hands IH]; intros Hin.
    - now apply elem_of_nil in Hin.
    - cbn [drawEach]. apply elem_of_cons in Hin as [<-|Hin].
      + now rewrite (drawSingleHandSkeleton_None hand Hlen).
      + rewrite (IH Hin). destruct (drawSingleHandSkeleton h); reflexivity. }
  unfold onHandPosition, drawAllHands. rewrite Hdraw. reflexivity.
Qed.



End ReportedPosition.

(** ** The hash against Mulberry32 *)

Section Mulberry.

Lemma lxor_mod_pow2 a b n :
  0 <= n -> Z.lxor a b mod 2 ^ n = Z.lxor (a mod 2 ^ n) (b mod 2 ^ n).
Proof.
  intros Hn. apply Z.bits_inj'. intros i Hi.
  rewrite Z.lxor_spec, !Z.testbit_mod_pow2, Z.lxor_spec by lia.
  destruct (i <? n); [now rewrite !andb_true_l|reflexivity].
Qed.

Lemma lor_mod_pow2 a b n :
  0 <= n -> Z.lor a b mod 2 ^ n = Z.lor (a mod 2 ^ n) (b mod 2 ^ n).
Proof.
  intros Hn. apply Z.bits_inj'. intros i Hi.
  rewrite Z.lor_spec, !Z.testbit_mod_pow2, Z.lor_spec by lia.
  destruct (i <? n); [now rewrite !andb_true_l|reflexivity].
Qed.

Lemma ToInt32_mod x : JS.ToInt32 x mod 2 ^ 32 = x mod 2 ^ 32.
Proof.
  unfold JS.ToInt32. rewrite Zminus_mod_idemp_l. f_equal. lia.
Qed.

Lemma shiftr_mod_small z n :
  0 <= n -> (Z.shiftr (z mod 2 ^ 32) n) mod 2 ^ 32 = Z.shiftr (z mod 2 ^ 32) n.
Proof.
  intros Hn. apply Z.mod_small.
  pose proof (ushr_range z n Hn) as H. exact H.
Qed.

(** The signed operators of JavaScript, seen modulo 2^32. *)
Lemma xor_mod a b :
  JS.xor a b mod 2 ^ 32 = Z.lxor (a mod 2 ^ 32) (b mod 2 ^ 32).
Proof. unfold JS.xor. now rewrite lxor_mod_pow2, !ToInt32_mod by lia. Qed.

Lemma bor_mod a b :
  JS.bor a b mod 2 ^ 32 = Z.lor (a mod 2 ^ 32) (b mod 2 ^ 32).
Proof. unfold JS.bor. now rewrite lor_mod_pow2, !ToInt32_mod by lia. Qed.

Lemma imul_mod a b :
  JS.imul a b mod 2 ^ 32 = ((a mod 2 ^ 32) * (b mod 2 ^ 32)) mod 2 ^ 32.
Proof.
  unfold JS.imul. rewrite ToInt32_mod.
  rewrite Zmult_mod, !ToInt32_mod. reflexivity.
Qed.

Lemma ushr_mod a n :
  0 <= n -> JS.ushr a n mod 2 ^ 32 = Z.shiftr (a mod 2 ^ 32) n.
Proof. intros Hn. unfold JS.ushr, JS.ToUint32. now apply shiftr_mod_small. Qed.

Lemma pseudoRandom_word_mulberry32 seed :
  GestureController.pseudoRandom_word seed = Mulberry32.next seed.
Proof.
  unfold GestureController.pseudoRandom_word, Mulberry32.next, Mulberry32.W.
  cbv zeta.
  set (t0 := seed + 0x6D2B79F5).
  set (t1 := JS.imul (JS.xor t0 (JS.ushr t0 15)) (JS.bor t0 1)).
  set (t2 := JS.xor t1 (t1 + JS.imul (JS.xor t1 (JS.ushr t1 7)) (JS.bor t1 61))).
  assert (H1 : t1 mod 2 ^ 32 =
    (Z.lxor (t0 mod 2 ^ 32) (Z.shiftr (t0 mod 2 ^ 32) 15)
     * Z.lor (t0 mod 2 ^ 32) 1) mod 2 ^ 32).
  { unfold t1. rewrite imul_mod, xor_mod, bor_mod, ushr_mod by lia.
    reflexivity. }
  assert (H2 : t2 mod 2 ^ 32 =
    Z.lxor (t1 mod 2 ^ 32)
      ((t1 mod 2 ^ 32
        + (Z.lxor (t1 mod 2 ^ 32) (Z.shiftr (t1 mod 2 ^ 32) 7)
           * Z.lor (t1 mod 2 ^ 32) 61) mod 2 ^ 32) mod 2 ^ 32)).
  { unfold t2. rewrite xor_mod. f_equal.
    rewrite Zplus_mod, imul_mod, xor_mod, bor_mod, ushr_mod by lia.
    reflexivity. }
  rewrite <- H1, <- H2.
  unfold JS.ushr at 1. rewrite Z.shiftr_0_r. unfold JS.ToUint32.
  rewrite xor_mod, ushr_mod by lia. reflexivity.
Qed.

Lemma polaroids_word_mulberry32 seed :
  Polaroids.pseudoRandom_word seed = Mulberry32.next seed.
Proof.
  rewrite <- (pseudoRandom_word_mulberry32 seed).
  unfold Polaroids.pseudoRandom_word, GestureController.pseudoRandom_word.
  cbv zeta. reflexivity.
Qed.

(** X7.  On every integer seed on which the addition of the constant is
    exact in double arithmetic (the seed is at least -2^53 and the sum at
    most 2^53), both copies of [pseudoRandom] compute Mulberry32: the
    32-bit signed operators of JavaScript give, word for word, what the
    hash gives on unsigned 32-bit words, and the result is that word over
    2^32. *)
Theorem pseudoRandom_is_mulberry32 (seed : Z) :
  Mulberry32.exactSeed seed ->
  GestureController.pseudoRandom seed
    = (IZR (Mulberry32.next seed) / 4294967296)%R /\
  Polaroids.pseudoRandom seed
    = (IZR (Mulberry32.next seed) / 4294967296)%R.
Proof.
  intros _. split.
  - unfold GestureController.pseudoRandom.
    rewrite (pseudoRandom_word_mulberry32 seed). reflexivity.
  - unfold Polaroids.pseudoRandom.
    rewrite (polaroids_word_mulberry32 seed). reflexivity.
Qed.

Lemma pseudoRandom_is_mulberry32_witness :
  Mulberry32.exactSeed 77 /\
  GestureController.pseudoRandom 77
    = (IZR (Mulberry32.next 77) / 4294967296)%R /\
  Polaroids.pseudoRandom 77
    = (IZR (Mulberry32.next 77) / 4294967296)%R.
Proof.
  assert (H : Mulberry32.exactSeed 77).
  { unfold Mulberry32.exactSeed. split; lia. }
  split; [exact H|]. exact (pseudoRandom_is_mulberry32 77 H).
Defined.

(** X8.  Seeds that differ by a multiple of 2^32 give the same number, in
    both copies, as long as both seeds are ones on which the addition of
    the constant is exact in double arithmetic. *)
Theorem pseudoRandom_period (seed k : Z) :
  Mulberry32.exactSeed seed ->
  Mulberry32.exactSeed (seed + k * 2 ^ 32) ->
  GestureController.pseudoRandom (seed + k * 2 ^ 32)
    = GestureController.pseudoRandom seed /\
  Polaroids.pseudoRandom (seed + k * 2 ^ 32) = Polaroids.pseudoRandom seed.
Proof.
  intros _ _.
  assert (H : Mulberry32.next (seed + k * 2 ^ 32) = Mulberry32.next seed).
  { unfold Mulberry32.next, Mulberry32.W.
    replace (seed + k * 2 ^ 32 + 0x6D2B79F5)
      with (seed + 0x6D2B79F5 + k * 2 ^ 32) by lia.
    rewrite Z_mod_plus_full. reflexivity. }
  split.
  - unfold GestureController.pseudoRandom.
    rewrite (pseudoRandom_word_mulberry32 seed),
            (pseudoRandom_word_mulberry32 (seed + k * 2 ^ 32)), H.
    reflexivity.
  - unfold Polaroids.pseudoRandom.
    rewrite (polaroids_word_mulberry32 seed),
            (polaroids_word_mulberry32 (seed + k * 2 ^ 32)), H.
    reflexivity.
Qed.

Lemma pseudoRandom_period_witness :
  Mulberry32.exactSeed 5 /\
  Mulberry32.exactSeed (5 + 3 * 2 ^ 32) /\
  GestureController.pseudoRandom (5 + 3 * 2 ^ 32)
    = GestureController.pseudoRandom 5 /\
  Polaroids.pseudoRandom (5 + 3 * 2 ^ 32) = Polaroids.pseudoRandom 5.
Proof.
  assert (H1 : Mulberry32.exactSeed 5).
  { unfold Mulberry32.exactSeed. split; lia. }
  assert (H2 : Mulberry32.exactSeed (5 + 3 * 2 ^ 32)).
  { unfold Mulberry32.exactSeed. split; lia. }
  split; [exact H1|]. split; [exact H2|].
  exact (pseudoRandom_period 5 3 H1 H2).
Defined.

End Mulberry.

(** ** More on the photo spread layout *)

Section SpreadMore.

Import GestureController.
Local Open Scope R_scope.

Lemma spread_lookup count opts i :
  (i < count)%nat ->
  getUnleashSpreadPositions count opts !! i = Some (spreadEntry count opts i).
Proof.
  intros Hi. rewrite getUnleashSpreadPositions_map, list_lookup_fmap.
  rewrite lookup_seq_lt by exact Hi. reflexivity.
Qed.

Lemma spreadEntry_polar count opts i :
  x (spreadEntry count opts i)
    = cos (SpreadParts.angle count opts i) * SpreadParts.radius opts i /\
  z (spreadEntry count opts i)
    = sin (SpreadParts.angle count opts i) * SpreadParts.radius opts i.
Proof. split; reflexivity. Qed.

(** X9.  With an angular jitter no larger than the spacing of the raw angles
    ([radialJitter * count <= 2 PI]; the default 0.28 allows 22 photos),
    the entries keep their order around the circle and no two of them
    point in the same direction: the jittered angle grows with the index,
    by less than a full turn in all. *)
Theorem spread_angles_keep_their_order
    (count : nat) (opts : option SpreadOpts) (i j : nat) :
  0 <= optOr opts radialJitter 0.28 ->
  optOr opts radialJitter 0.28 * INR count <= 2 * PI ->
  (i < j < count)%nat ->
  exists p q,
    getUnleashSpreadPositions count opts !! i = Some p /\
    getUnleashSpreadPositions count opts !! j = Some q /\
    x p = cos (SpreadParts.angle count opts i) * SpreadParts.radius opts i /\
    z p = sin (SpreadParts.angle count opts i) * SpreadParts.radius opts i /\
    x q = cos (SpreadParts.angle count opts j) * SpreadParts.radius opts j /\
    z q = sin (SpreadParts.angle count opts j) * SpreadParts.radius opts j /\
    SpreadParts.angle count opts i < SpreadParts.angle count opts j
      < SpreadParts.angle count opts i + 2 * PI.
Proof.
  intros Haj Hfit Hij.
  exists (spreadEntry count opts i), (spreadEntry count opts j).
  split; [apply spread_lookup; lia|]. split; [apply spread_lookup; lia|].
  destruct (spreadEntry_polar count opts i) as [-> ->].
  destruct (spreadEntry_polar count opts j) as [-> ->].
  do 4 (split; [reflexivity|]).
  unfold SpreadParts.angle, spreadTheta. cbv zeta.
  set (aj := optOr opts radialJitter 0.28) in *.
  pose proof (pseudoRandom_range (Z.of_nat i + 1)) as Hpi.
  pose proof (pseudoRandom_range (Z.of_nat j + 1)) as Hpj.
  set (pi := pseudoRandom (Z.of_nat i + 1)) in *.
  set (pj := pseudoRandom (Z.of_nat j + 1)) in *.
  pose proof PI_RGT_0 as Hpi0.
  assert (Hc : 0 < INR count) by (apply lt_0_INR; lia).
  assert (Hinv : 0 < / INR count) by now apply Rinv_0_lt_compat.
  assert (Hcc : INR count * / INR count = 1) by (apply Rinv_r; lra).
  assert (Hji : INR i + 1 <= INR j).
  { rewrite <- S_INR. apply le_INR. lia. }
  assert (Hjc : INR j + 1 <= INR count).
  { rewrite <- S_INR. apply le_INR. lia. }
  assert (Hi0 : 0 <= INR i) by apply pos_INR.
  (* the raw angles are at least one spacing and less than a turn apart *)
  set (s := / INR count * PI * 2) in *.
  assert (Hs : 0 < s) by (unfold s; nra).
  assert (Hsaj : aj <= s).
  { unfold s. apply Rmult_le_reg_r with (INR count); [exact Hc|].
    replace (/ INR count * PI * 2 * INR count)
      with (2 * PI * (INR count * / INR count)) by ring.
    rewrite Hcc. lra. }
  assert (Hti : INR i / INR count * PI * 2 = INR i * s) by (unfold s, Rdiv; ring).
  assert (Htj : INR j / INR count * PI * 2 = INR j * s) by (unfold s, Rdiv; ring).
  assert (Hturn : INR count * s = 2 * PI).
  { unfold s. replace (INR count * (/ INR count * PI * 2))
      with (2 * PI * (INR count * / INR count)) by ring.
    rewrite Hcc. ring. }
  rewrite Hti, Htj.
  assert (Hgap : s <= INR j * s - INR i * s) by nra.
  assert (Hspan : INR j * s - INR i * s <= 2 * PI - s) by nra.
  assert (Hjit : - aj <= pj * aj - pi * aj <= aj) by nra.
  assert (Hjit' : aj = 0 \/ (- aj < pj * aj - pi * aj < aj)).
  { destruct (Req_dec aj 0) as [->|Hne]; [now left|right]. nra. }
  destruct Hjit' as [H0|Hstrict]; [rewrite H0 in *|]; lra.
Qed.

Lemma PI_above_3_13 : 3.13 < PI.
Proof.
  destruct (PI_2_3_7_ineq 0) as [H _].
  unfold sum_f_R0, tg_alt, PI_2_3_7_tg, Ratan_seq in H. simpl in H. lra.
Qed.

Lemma spread_angles_keep_their_order_witness :
  exists p q,
    getUnleashSpreadPositions 22 None !! 3%nat = Some p /\
    getUnleashSpreadPositions 22 None !! 4%nat = Some q /\
    x p = cos (SpreadParts.angle 22 None 3) * SpreadParts.radius None 3 /\
    z p = sin (SpreadParts.angle 22 None 3) * SpreadParts.radius None 3 /\
    x q = cos (SpreadParts.angle 22 None 4) * SpreadParts.radius None 4 /\
    z q = sin (SpreadParts.angle 22 None 4) * SpreadParts.radius None 4 /\
    SpreadParts.angle 22 None 3 < SpreadParts.angle 22 None 4
      < SpreadParts.angle 22 None 3 + 2 * PI.
Proof.
  apply (spread_angles_keep_their_order 22 None 3 4).
  - cbn. lra.
  - cbn [optOr mbind option_bind default].
    pose proof PI_above_3_13 as Hpi.
    replace (INR 22) with 22 by (simpl; lra). lra.
  - lia.
Defined.

End SpreadMore.

Section SpreadExtent.

Import GestureController.
Local Open Scope R_scope.

(** X10.  With a vertical jitter and an easing that are not negative, every
    entry of the spread lies within [verticalJitter * easing] of the
    horizontal plane. *)
Theorem spread_vertical_extent
    (count : nat) (opts : option SpreadOpts) (p : Vec3) :
  0 <= optOr opts verticalJitter 2.3 -> 0 <= optOr opts easing 1 ->
  p ∈ getUnleashSpreadPositions count opts ->
  Rabs (y p) <= optOr opts verticalJitter 2.3 * optOr opts easing 1.
Proof.
  intros Hvj He Hp. rewrite getUnleashSpreadPositions_map in Hp.
  apply list_elem_of_fmap in Hp as (i & -> & _).
  unfold spreadEntry. cbn [y].
  set (vj := optOr opts verticalJitter 2.3) in *.
  set (e := optOr opts easing 1) in *.
  pose proof (pseudoRandom_range (Z.of_nat i + 113)) as Hr.
  set (r := pseudoRandom (Z.of_nat i + 113)) in *.
  assert (Hve : 0 <= vj * e) by now apply Rmult_le_pos.
  replace ((r - 0.5) * 2 * vj * e) with ((2 * r - 1) * (vj * e)) by lra.
  apply Rabs_le. split; nra.
Qed.

Lemma spread_vertical_extent_witness :
  Rabs (y (spreadEntry 22 None 0)) <= optOr None verticalJitter 2.3 * optOr None easing 1.
Proof.
  apply (spread_vertical_extent 22 None (spreadEntry 22 None 0)).
  - cbn. lra.
  - cbn. lra.
  - apply list_elem_of_lookup. exists 0%nat. apply spread_lookup. lia.
Defined.

(** X11.  Whatever the options, no item gives no entry.  And with an
    easing of 0 the spread is collapsed: every entry, for every count, is
    the origin. *)
Theorem spread_collapses_at_zero_easing
    (count : nat) (opts : option SpreadOpts) :
  getUnleashSpreadPositions 0 opts = [] /\
  (optOr opts easing 1 = 0 ->
   forall p, p ∈ getUnleashSpreadPositions count opts ->
             p = {| x := 0; y := 0; z := 0 |}).
Proof.
  split; [reflexivity|]. intros He p Hp.
  rewrite getUnleashSpreadPositions_map in Hp.
  apply list_elem_of_fmap in Hp as (i & -> & _).
  unfold spreadEntry. cbv zeta. rewrite He. f_equal; lra.
Qed.

Lemma spread_collapses_at_zero_easing_witness :
  getUnleashSpreadPositions 0 (Some SpreadParts.collapsed) = [] /\
  spreadEntry 3 (Some SpreadParts.collapsed) 2 = {| x := 0; y := 0; z := 0 |}.
Proof.
  destruct (spread_collapses_at_zero_easing 3 (Some SpreadParts.collapsed))
    as [Hnone Horigin].
  split; [exact Hnone|].
  apply Horigin.
  - reflexivity.
  - apply list_elem_of_lookup. exists 2%nat. apply spread_lookup. lia.
Defined.

End SpreadExtent.

(** ** The photo layout *)

Section Photos.

Import Foliage PhotoLayout.
Local Open Scope R_scope.

Lemma yNorm_range count i :
  (i < count)%nat -> 0.2 <= PhotoFacts.yNorm count i < 0.8.
Proof.
  intros Hi. unfold PhotoFacts.yNorm.
  assert (Hc : 0 < INR count) by (apply lt_0_INR; lia).
  assert (Hii : 0 <= INR i < INR count) by (split; [apply pos_INR|apply lt_INR; lia]).
  assert (Hinv : 0 < / INR count) by now apply Rinv_0_lt_compat.
  assert (Hcc : INR count * / INR count = 1) by (apply Rinv_r; lra).
  unfold Rdiv. nra.
Qed.

Lemma yNorm_increasing count i j :
  (i < j)%nat -> (0 < count)%nat ->
  PhotoFacts.yNorm count i < PhotoFacts.yNorm count j.
Proof.
  intros Hij Hc. unfold PhotoFacts.yNorm.
  assert (Hc' : 0 < INR count) by (apply lt_0_INR; lia).
  assert (Hinv : 0 < / INR count) by now apply Rinv_0_lt_compat.
  assert (Hlt : INR i < INR j) by (apply lt_INR; lia).
  unfold Rdiv. nra.
Qed.

Lemma photo_run uploadedPhotos count i g :
  (i < count)%nat ->
  exists p,
    photo uploadedPhotos count i g
      = Some (p, {| draws := draws g; cursor := S (cursor g) |}) /\
    PhotoFacts.placed uploadedPhotos count i (draws g (cursor g)) p.
Proof.
  intros Hi. unfold photo, bind, Math_random, ret. cbv zeta.
  eexists. split; [reflexivity|].
  pose proof (yNorm_range count i Hi) as Hy.
  unfold PhotoFacts.placed. cbn [id url speed targetPos chaosPos x y z].
  do 4 (split; [reflexivity|]).
  fold (PhotoFacts.yNorm count i).
  set (yn := PhotoFacts.yNorm count i) in *.
  split; [|split].
  - unfold radial. cbn [x z].
    rewrite (Rmult_comm _ (cos _)), (Rmult_comm _ (sin _)).
    rewrite polar_radius by lra. lra.
  - unfold radial. cbn [x z]. rewrite !Rplus_0_l.
    pose proof (word_unit_interval (Polaroids.pseudoRandom_word (Z.of_nat i + 77))
                  (ushr_range _ 0 ltac:(lia))) as Hr.
    fold (Polaroids.pseudoRandom (Z.of_nat i + 77)) in Hr.
    set (r := Polaroids.pseudoRandom (Z.of_nat i + 77)) in *.
    rewrite polar_radius by lra. lra.
  - pose proof (word_unit_interval (Polaroids.pseudoRandom_word (Z.of_nat i + 999))
                  (ushr_range _ 0 ltac:(lia))) as Hr.
    fold (Polaroids.pseudoRandom (Z.of_nat i + 999)) in Hr.
    set (r := Polaroids.pseudoRandom (Z.of_nat i + 999)) in *.
    lra.
Qed.

(** The loop appends one photo per index, each placed as the body places
    it, and draws once per photo. *)
Lemma photoLoop_run uploadedPhotos count todo : forall i data g,
  (i + todo <= count)%nat -> length data = i ->
  exists data' g',
    photoLoop uploadedPhotos count todo i data g = Some (data', g') /\
    draws g' = draws g /\ cursor g' = (cursor g + todo)%nat /\
    length data' = (i + todo)%nat /\
    (forall k, (k < i)%nat -> data' !! k = data !! k) /\
    (forall k, (i <= k < i + todo)%nat ->
       exists p, data' !! k = Some p /\
         PhotoFacts.placed uploadedPhotos count k
           (draws g (cursor g + (k - i))%nat) p).
Proof.
  induction todo as [|todo IH]; intros i data g Hi Hlen.
  - exists data, g. cbn [photoLoop]. unfold ret.
    split; [reflexivity|]. split; [reflexivity|]. split; [lia|].
    split; [lia|]. split; [reflexivity|]. intros k Hk. lia.
  - cbn [photoLoop]. unfold bind at 1.
    destruct (photo_run uploadedPhotos count i g ltac:(lia)) as (p & -> & Hp).
    destruct (IH (S i) (data ++ [p])
                {| draws := draws g; cursor := S (cursor g) |}
                ltac:(lia) ltac:(rewrite length_app; cbn; lia))
      as (data' & g' & -> & Hd & Hc & Hl & Hold & Hnew).
    cbn [draws cursor] in *.
    exists data', g'. split; [reflexivity|]. split; [exact Hd|].
    split; [lia|]. split; [lia|]. split.
    + intros k Hk. rewrite Hold by lia. apply lookup_app_l. lia.
    + intros k Hk. destruct (decide (k = i)) as [->|Hne].
      * exists p. split.
        -- rewrite Hold by lia. rewrite lookup_app_r by lia.
           replace (i - length data)%nat with 0%nat by lia. reflexivity.
        -- replace (cursor g + (i - i))%nat with (cursor g) by lia. exact Hp.
      * destruct (Hnew k ltac:(lia)) as (q & Hq & Hpl).
        exists q. split; [exact Hq|].
        replace (cursor g + (k - i))%nat
          with (S (cursor g) + (k - S i))%nat by lia.
        exact Hpl.
Qed.

Lemma photoData_run uploadedPhotos g :
  exists data g',
    photoData uploadedPhotos g = Some (data, g') /\
    draws g' = draws g /\
    cursor g' = (cursor g + length uploadedPhotos)%nat /\
    length data = length uploadedPhotos /\
    (forall k, (k < length uploadedPhotos)%nat ->
       exists p, data !! k = Some p /\
         PhotoFacts.placed uploadedPhotos (length uploadedPhotos) k
           (draws g (cursor g + k)%nat) p).
Proof.
  unfold photoData.
  destruct (Nat.eqb_spec (length uploadedPhotos) 0) as [E|E].
  - exists [], g. unfold ret. rewrite E.
    split; [reflexivity|]. split; [reflexivity|]. split; [lia|].
    split; [reflexivity|]. intros k Hk. lia.
  - destruct (photoLoop_run uploadedPhotos (length uploadedPhotos)
                (length uploadedPhotos) 0 [] g ltac:(lia) eq_refl)
      as (data & g' & -> & Hd & Hc & Hl & _ & Hnew).
    exists data, g'. split; [reflexivity|]. split; [exact Hd|].
    split; [exact Hc|]. split; [exact Hl|].
    intros k Hk. destruct (Hnew k ltac:(lia)) as (p & Hp & Hpl).
    exists p. split; [exact Hp|].
    replace (cursor g + k)%nat with (cursor g + (k - 0))%nat by lia.
    exact Hpl.
Qed.

End Photos.

Section PhotoTheorems.

Import Foliage PhotoLayout.
Local Open Scope R_scope.

(** X12.  The [photoData] memo returns one photo per uploaded picture, in
    order: photo [k] has id [k] and the [k]-th url, and a speed of at
    least 0.8 and less than 2.3 when its draw of [Math.random] is in
    [0, 1).  Without pictures it returns no photo and draws nothing. *)
Theorem photoData_one_photo_per_upload
    (uploadedPhotos : list String.string) (g : Random) :
  exists data g',
    photoData uploadedPhotos g = Some (data, g') /\
    length data = length uploadedPhotos /\
    cursor g' = (cursor g + length uploadedPhotos)%nat /\
    (forall k u, uploadedPhotos !! k = Some u ->
       exists p, data !! k = Some p /\ id p = k /\ url p = Some u /\
         (0 <= draws g (cursor g + k)%nat < 1 -> 0.8 <= speed p < 2.3)) /\
    (uploadedPhotos = [] -> data = []).
Proof.
  destruct (photoData_run uploadedPhotos g)
    as (data & g' & Hrun & _ & Hc & Hl & Hk).
  exists data, g'. do 3 (split; [assumption|]). split.
  - intros k u Hu.
    destruct (Hk k (lookup_lt_Some _ _ _ Hu))
      as (p & Hp & Hid & Hurl & Hsp & _).
    exists p. split; [exact Hp|]. split; [exact Hid|].
    split; [congruence|]. intros Hd. rewrite Hsp. lra.
  - intros ->. cbn in Hl. now apply length_zero_iff_nil.
Qed.

(** X13.  The targets climb a cone: every photo, also a single one, hangs
    at a height of at least 1.8 and less than 7.2 and at a distance from
    the trunk axis of more than 1.8 and at most 4.8; and every photo with
    a higher index hangs strictly higher and strictly nearer the axis. *)
Theorem photo_targets_climb_a_cone
    (uploadedPhotos : list String.string) (g g' : Random)
    (data : list PhotoData) (k : nat) (p : PhotoData) :
  photoData uploadedPhotos g = Some (data, g') ->
  data !! k = Some p ->
  (1.8 <= y (targetPos p) < 7.2 /\ 1.8 < radial (targetPos p) <= 4.8) /\
  (forall k' p', data !! k' = Some p' -> (k < k')%nat ->
     y (targetPos p) < y (targetPos p') /\
     radial (targetPos p') < radial (targetPos p)).
Proof.
  intros Hrun Hp.
  destruct (photoData_run uploadedPhotos g)
    as (data0 & g0 & Hrun0 & _ & _ & Hl & Hk).
  rewrite Hrun in Hrun0. injection Hrun0 as <- <-.
  assert (Hlt : (k < length uploadedPhotos)%nat).
  { rewrite <- Hl. exact (lookup_lt_Some _ _ _ Hp). }
  destruct (Hk k Hlt) as (q & Hq & _ & _ & _ & Hy & Hr & _).
  rewrite Hp in Hq. injection Hq as <-.
  pose proof (yNorm_range (length uploadedPhotos) k Hlt).
  split; [rewrite Hy, Hr; lra|].
  intros k' p' Hp' Hkk.
  assert (Hlt' : (k' < length uploadedPhotos)%nat).
  { rewrite <- Hl. exact (lookup_lt_Some _ _ _ Hp'). }
  destruct (Hk k' Hlt') as (q' & Hq' & _ & _ & _ & Hy' & Hr' & _).
  rewrite Hp' in Hq'. injection Hq' as <-.
  pose proof (yNorm_increasing (length uploadedPhotos) k k' Hkk ltac:(lia)).
  rewrite Hy, Hy', Hr, Hr'. lra.
Qed.

(** X14.  The chaos positions lie on a ring around the tree: each at a distance
    of at least 10 and less than 20 from the axis and at a height of at
    least 2 and less than 8; so every photo scatters to a place strictly
    further from the axis than any photo's place on the tree. *)
Theorem photo_chaos_ring_clears_the_tree
    (uploadedPhotos : list String.string) (g g' : Random)
    (data : list PhotoData) (k k' : nat) (p p' : PhotoData) :
  photoData uploadedPhotos g = Some (data, g') ->
  data !! k = Some p -> data !! k' = Some p' ->
  10 <= radial (chaosPos p) < 20 /\ 2 <= y (chaosPos p) < 8 /\
  radial (targetPos p') < radial (chaosPos p).
Proof.
  intros Hrun Hp Hp'.
  destruct (photoData_run uploadedPhotos g)
    as (data0 & g0 & Hrun0 & _ & _ & Hl & Hk).
  rewrite Hrun in Hrun0. injection Hrun0 as <- <-.
  assert (Hlt : (k < length uploadedPhotos)%nat).
  { rewrite <- Hl. exact (lookup_lt_Some _ _ _ Hp). }
  assert (Hlt' : (k' < length uploadedPhotos)%nat).
  { rewrite <- Hl. exact (lookup_lt_Some _ _ _ Hp'). }
  destruct (Hk k Hlt) as (q & Hq & _ & _ & _ & _ & _ & Hc & Hcy).
  destruct (Hk k' Hlt') as (q' & Hq' & _ & _ & _ & _ & Hr' & _).
  rewrite Hp in Hq. injection Hq as <-.
  rewrite Hp' in Hq'. injection Hq' as <-.
  pose proof (yNorm_range (length uploadedPhotos) k' Hlt').
  rewrite Hr'. lra.
Qed.

End PhotoTheorems.

Section PhotoWitnesses.

Import Foliage PhotoLayout.
Local Open Scope R_scope.

Lemma photo_targets_climb_a_cone_witness :
  exists (data : list PhotoData) (p : PhotoData),
    data !! 0%nat = Some p /\
    (1.8 <= y (targetPos p) < 7.2 /\ 1.8 < radial (targetPos p) <= 4.8) /\
    (forall k' p', data !! k' = Some p' -> (0 < k')%nat ->
       y (targetPos p) < y (targetPos p') /\
       radial (targetPos p') < radial (targetPos p)).
Proof.
  destruct (photoData_run Pictures.one Samples.halves)
    as (data & g' & Hrun & _ & _ & _ & Hk).
  destruct (Hk 0%nat ltac:(cbn; lia)) as (p & Hp & _).
  exists data, p. split; [exact Hp|].
  exact (photo_targets_climb_a_cone Pictures.one Samples.halves g' data
           0 p Hrun Hp).
Defined.

Lemma photo_chaos_ring_clears_the_tree_witness :
  exists p p',
    10 <= radial (chaosPos p) < 20 /\ 2 <= y (chaosPos p) < 8 /\
    radial (targetPos p') < radial (chaosPos p).
Proof.
  destruct (photoData_run Pictures.three Samples.halves)
    as (data & g' & Hrun & _ & _ & _ & Hk).
  destruct (Hk 1%nat ltac:(cbn; lia)) as (p & Hp & _).
  destruct (Hk 0%nat ltac:(cbn; lia)) as (p' & Hp' & _).
  exists p, p'.
  exact (photo_chaos_ring_clears_the_tree Pictures.three Samples.halves g'
           data 1 0 p p' Hrun Hp Hp').
Defined.

End PhotoWitnesses.

(** ** The closest photo *)

Section ClosestPhoto.

Import PhotoLayout.
Local Open Scope R_scope.

Lemma gtb_true a b : JS.gtb a b = true <-> a > b.
Proof.
  unfold JS.gtb. destruct (Rgt_dec a b); split; intros; try discriminate;
    try reflexivity; try assumption; contradiction.
Qed.

(** What the scan knows after the children before [i]: nothing yet if no
    child was a candidate, else the first nearest candidate so far. *)
Lemma forEachChild_scan photoCount cameraPos all children :
  forall i minDistance closestIndex,
  drop i all = children ->
  match minDistance with
  | None => Nat.min i photoCount = 0%nat
  | Some d =>
      (closestIndex < Nat.min i photoCount)%nat /\
      (exists w, all !! closestIndex = Some w /\ d = distanceTo w cameraPos) /\
      (forall j w, (j < Nat.min i photoCount)%nat -> all !! j = Some w ->
         d <= distanceTo w cameraPos /\
         ((j < closestIndex)%nat -> d < distanceTo w cameraPos))
  end ->
  match forEachChild photoCount cameraPos children i minDistance closestIndex with
  | (None, _) => Nat.min (length all) photoCount = 0%nat
  | (Some d, k) =>
      (k < Nat.min (length all) photoCount)%nat /\
      (exists w, all !! k = Some w /\ d = distanceTo w cameraPos) /\
      (forall j w, (j < Nat.min (length all) photoCount)%nat ->
         all !! j = Some w ->
         d <= distanceTo w cameraPos /\
         ((j < k)%nat -> d < distanceTo w cameraPos))
  end.
Proof.
  induction children as [|w children IH]; intros i m c Hdrop Hinv.
  - cbn [forEachChild].
    assert (Hi : (length all <= i)%nat).
    { destruct (decide (length all <= i)%nat) as [|Hn]; [assumption|].
      assert (Hl : length (drop i all) = 0%nat) by now rewrite Hdrop.
      rewrite length_drop in Hl. lia. }
    destruct m as [d|].
    + destruct Hinv as (Hc & Hw & Hall). split; [|split].
      * destruct Hw as (w & Hw & _). apply lookup_lt_Some in Hw. lia.
      * exact Hw.
      * intros j w Hj Hjw. apply Hall; [|exact Hjw].
        apply lookup_lt_Some in Hjw. lia.
    + lia.
  - assert (Hiw : all !! i = Some w).
    { rewrite <- (Nat.add_0_r i), <- lookup_drop, Hdrop. reflexivity. }
    assert (Hdrop' : drop (S i) all = children).
    { replace (S i) with (i + 1)%nat by lia.
      rewrite <- drop_drop, Hdrop. reflexivity. }
    pose proof (lookup_lt_Some _ _ _ Hiw) as Hil.
    cbn [forEachChild].
    destruct (Nat.ltb_spec i photoCount) as [Hlt|Hge].
    + destruct m as [d|].
      * destruct Hinv as (Hc & Hcw & Hall).
        destruct (JS.gtb d (distanceTo w cameraPos)) eqn:Hg.
        -- apply gtb_true in Hg. apply IH; [exact Hdrop'|].
           split; [lia|]. split; [eauto|].
           intros j wj Hj Hjw. destruct (decide (j = i)) as [->|Hne].
           ++ rewrite Hiw in Hjw. injection Hjw as <-. split; [lra|lia].
           ++ destruct (Hall j wj ltac:(lia) Hjw) as [Hle _]. split; intros; lra.
        -- assert (Hng : ~ d > distanceTo w cameraPos).
           { intros H. apply gtb_true in H. congruence. }
           apply IH; [exact Hdrop'|].
           split; [lia|]. split; [exact Hcw|].
           intros j wj Hj Hjw. destruct (decide (j = i)) as [->|Hne].
           ++ rewrite Hiw in Hjw. injection Hjw as <-. split; [lra|lia].
           ++ apply Hall; [lia|exact Hjw].
      * apply IH; [exact Hdrop'|].
        split; [lia|]. split; [eauto|].
        intros j wj Hj Hjw. assert (j = i) as -> by lia.
        rewrite Hiw in Hjw. injection Hjw as <-. split; [lra|lia].
    + apply IH; [exact Hdrop'|].
      destruct m as [d|].
      * destruct Hinv as (Hc & Hcw & Hall). split; [lia|]. split; [exact Hcw|].
        intros j wj Hj Hjw. apply Hall; [lia|exact Hjw].
      * lia.
Qed.

(** X15.  With two hands in view, the photo reported to [onClosestPhotoChange]
    is the nearest to the camera among the children that stand for a
    photo, and the first of them on a tie. *)
Theorem closest_photo_is_nearest
    (uploadedPhotos : list String.string) (children : list Vec3)
    (cameraPos : Vec3) :
  uploadedPhotos <> [] -> children <> [] ->
  exists k u w,
    closestPhoto true uploadedPhotos (length uploadedPhotos) children cameraPos
      = Some u /\
    uploadedPhotos !! k = Some u /\ children !! k = Some w /\
    forall j wj, (j < length uploadedPhotos)%nat -> children !! j = Some wj ->
      distanceTo w cameraPos <= distanceTo wj cameraPos /\
      ((j < k)%nat -> distanceTo w cameraPos < distanceTo wj cameraPos).
Proof.
  intros Hu Hc.
  assert (Hlu : (0 < length uploadedPhotos)%nat).
  { destruct uploadedPhotos; [contradiction|cbn; lia]. }
  assert (Hlc : (0 < length children)%nat).
  { destruct children; [contradiction|cbn; lia]. }
  unfold closestPhoto.
  destruct (Nat.ltb_spec 0 (length uploadedPhotos)) as [_|]; [|lia].
  cbn [andb].
  pose proof (forEachChild_scan (length uploadedPhotos) cameraPos children
                children 0 None 0 eq_refl ltac:(cbn; lia)) as Hscan.
  destruct (forEachChild _ _ _ _ _ _) as [[d|] k]; [|lia].
  destruct Hscan as (Hk & (w & Hw & ->) & Hall). cbn [snd].
  destruct (lookup_lt_is_Some_2 uploadedPhotos k ltac:(lia)) as [u Hku].
  exists k, u, w. split; [exact Hku|]. split; [exact Hku|].
  split; [exact Hw|].
  intros j wj Hj Hjw. apply Hall; [|exact Hjw].
  apply lookup_lt_Some in Hjw. lia.
Qed.

Lemma closest_photo_is_nearest_witness :
  let children := [Samples.at_x 3; Samples.at_x 1; Samples.at_x 2] in
  let cameraPos := Samples.at_x 0 in
  exists k u w,
    closestPhoto true Pictures.three (length Pictures.three) children cameraPos
      = Some u /\
    Pictures.three !! k = Some u /\ children !! k = Some w /\
    forall j wj, (j < length Pictures.three)%nat -> children !! j = Some wj ->
      distanceTo w cameraPos <= distanceTo wj cameraPos /\
      ((j < k)%nat -> distanceTo w cameraPos < distanceTo wj cameraPos).
Proof.
  apply (closest_photo_is_nearest Pictures.three
           [Samples.at_x 3; Samples.at_x 1; Samples.at_x 2] (Samples.at_x 0)).
  - discriminate.
  - discriminate.
Defined.

End ClosestPhoto.

(** ** The hand-driven camera *)

Section Camera.

Import CameraRig.
Local Open Scope R_scope.

Lemma polar_limits : 0 < minPolar < maxPolar.
Proof. unfold minPolar, maxPolar. pose proof PI_RGT_0. lra. Qed.

Lemma clamp_unit a : 0 <= Rmax 0 (Rmin 1 a) <= 1.
Proof.
  split; [apply Rmax_l|].
  apply Rmax_lub; [lra|apply Rmin_l].
Qed.

Lemma targetPolar_bounds (handPosition : HandPosition) :
  minPolar <= targetPolar handPosition <= maxPolar.
Proof.
  unfold targetPolar. cbv zeta.
  pose proof (clamp_unit ((hand_y handPosition - 0.2) * 2.0)) as Hc.
  set (c := Rmax 0 (Rmin 1 _)) in *.
  pose proof polar_limits. nra.
Qed.

(** X16.  Wherever the hand is, the polar angle the camera is steered to lies
    within the limits of the orbit controls, [PI / 4] and [PI / 1.8]. *)
Theorem target_polar_within_limits (handPosition : HandPosition) :
  minPolar <= targetPolar handPosition <= maxPolar /\
  (hand_y handPosition <= 0.2 -> targetPolar handPosition = minPolar) /\
  (0.7 <= hand_y handPosition -> targetPolar handPosition = maxPolar).
Proof.
  split; [apply targetPolar_bounds|].
  unfold targetPolar. cbv zeta. split; intros Hy.
  - rewrite Rmin_right by lra. rewrite Rmax_left by lra. lra.
  - rewrite Rmin_left by lra. rewrite Rmax_right by lra. lra.
Qed.

(** X17.  For a hand inside the image and a current azimuth between [- PI] and
    [PI], the azimuth difference after wrapping lies between [- PI] and
    [PI] and differs from the plain difference by a whole number of turns
    (none, one back or one forth): the camera turns the short way. *)
Theorem azimuth_turns_the_short_way
    (handPosition : HandPosition) (currentAzimuth : R) :
  0 <= hand_x handPosition <= 1 -> - PI <= currentAzimuth <= PI ->
  - PI <= azimuthDiff handPosition currentAzimuth <= PI /\
  exists turns : Z,
    (-1 <= turns <= 1)%Z /\
    azimuthDiff handPosition currentAzimuth
      = targetAzimuth handPosition - currentAzimuth + IZR turns * (2 * PI).
Proof.
  intros Hx Hcur. unfold azimuthDiff, targetAzimuth. cbv zeta.
  pose proof PI_RGT_0 as Hpi.
  set (d := (hand_x handPosition - 0.5) * PI * 3 - currentAzimuth).
  assert (Hd : - (5 / 2 * PI) <= d <= 5 / 2 * PI) by (unfold d; nra).
  destruct (JS.gtb d PI) eqn:H1.
  - apply gtb_true in H1.
    destruct (JS.gtb (- PI) (d - PI * 2)) eqn:H2.
    + apply gtb_true in H2. lra.
    + split; [|exists (-1)%Z; split; [lia|lra]].
      assert (~ - PI > d - PI * 2) by (intros H; apply gtb_true in H; congruence).
      lra.
  - assert (Hn1 : ~ d > PI) by (intros H; apply gtb_true in H; congruence).
    destruct (JS.gtb (- PI) d) eqn:H2.
    + apply gtb_true in H2. split; [lra|]. exists 1%Z. split; [lia|lra].
    + assert (~ - PI > d) by (intros H; apply gtb_true in H; congruence).
      split; [lra|]. exists 0%Z. split; [lia|lra].
Qed.

Lemma azimuth_turns_the_short_way_witness :
  - PI <= azimuthDiff centred 3 <= PI /\
  exists turns : Z,
    (-1 <= turns <= 1)%Z /\
    azimuthDiff centred 3 = targetAzimuth centred - 3 + IZR turns * (2 * PI).
Proof.
  apply (azimuth_turns_the_short_way centred 3).
  - cbn. lra.
  - pose proof PI_above_3_13. lra.
Defined.

(** X18.  With a blend weight [delta * 8] between 0 and 1, a polar angle within
    the limits of the orbit controls stays within them and comes no
    further from its target. *)
Theorem new_polar_within_limits
    (handPosition : HandPosition) (delta currentPolar : R) :
  0 <= delta * lerpSpeed <= 1 -> minPolar <= currentPolar <= maxPolar ->
  minPolar <= newPolar handPosition delta currentPolar <= maxPolar /\
  Rabs (targetPolar handPosition - newPolar handPosition delta currentPolar)
    <= Rabs (targetPolar handPosition - currentPolar).
Proof.
  intros Hw Hcur. unfold newPolar.
  pose proof (targetPolar_bounds handPosition) as Ht.
  set (t := targetPolar handPosition) in *.
  set (w := delta * lerpSpeed) in *.
  replace (currentPolar + (t - currentPolar) * delta * lerpSpeed)
    with (currentPolar + (t - currentPolar) * w) by (unfold w; ring).
  split; [nra|].
  replace (t - (currentPolar + (t - currentPolar) * w))
    with ((1 - w) * (t - currentPolar)) by ring.
  rewrite Rabs_mult, (Rabs_pos_eq (1 - w)) by lra.
  pose proof (Rabs_pos (t - currentPolar)). nra.
Qed.

Lemma new_polar_within_limits_witness :
  minPolar <= newPolar centred (1 / 60) 1 <= maxPolar /\
  Rabs (targetPolar centred - newPolar centred (1 / 60) 1)
    <= Rabs (targetPolar centred - 1).
Proof.
  apply (new_polar_within_limits centred (1 / 60) 1).
  - unfold lerpSpeed. lra.
  - unfold minPolar, maxPolar. pose proof PI_above_3_13. pose proof PI_4. lra.
Defined.

(** X19.  The hand moves the camera on its sphere: the position it is given is
    at the distance from the target, (0, 4, 0), that the controls
    reported; and without a hand the camera is left alone. *)
Theorem camera_keeps_its_distance
    (handPosition : HandPosition) (delta currentAzimuth currentPolar radius : R) :
  0 <= radius ->
  match useFrame handPosition delta currentAzimuth currentPolar radius with
  | Some position =>
      detected handPosition = true /\
      PhotoLayout.distanceTo position target = radius
  | None => detected handPosition = false
  end.
Proof.
  intros Hr. unfold useFrame. destruct (detected handPosition); [|reflexivity].
  split; [reflexivity|].
  unfold PhotoLayout.distanceTo, target, targetY. cbn [x y z].
  set (P := newPolar handPosition delta currentPolar).
  set (A := newAzimuth handPosition delta currentAzimuth).
  pose proof (sin2_cos2 P) as HP. pose proof (sin2_cos2 A) as HA.
  unfold Rsqr in HP, HA.
  replace ((radius * sin P * sin A - 0) * (radius * sin P * sin A - 0)
           + (4 + radius * cos P - 4) * (4 + radius * cos P - 4)
           + (radius * sin P * cos A - 0) * (radius * sin P * cos A - 0))
    with (radius * radius
          * (sin P * sin P * (sin A * sin A + cos A * cos A) + cos P * cos P))
    by ring.
  rewrite HA, Rmult_1_r, HP, Rmult_1_r. now apply sqrt_square.
Qed.

Lemma camera_keeps_its_distance_witness :
  match useFrame centred (1 / 60) 0 1 18 with
  | Some position =>
      detected centred = true /\ PhotoLayout.distanceTo position target = 18
  | None => detected centred = false
  end.
Proof.
  apply (camera_keeps_its_distance centred (1 / 60) 0 1 18). lra.
Defined.

End Camera.

(** ** The blend of the vertex shader *)

Section Shader.

Import FoliageShader.
Local Open Scope R_scope.

Local Ltac by_cases_of_clamp :=
  unfold clamp, Rmin, Rmax; repeat destruct (Rle_dec _ _); lra.

Lemma clamp_range v : 0 <= clamp v 0.0 1.0 <= 1.
Proof. by_cases_of_clamp. Qed.

Lemma clamp_monotone v v' : v <= v' -> clamp v 0.0 1.0 <= clamp v' 0.0 1.0.
Proof. intros H. by_cases_of_clamp. Qed.

Lemma cubicInOut_range t : 0 <= t <= 1 -> 0 <= cubicInOut t <= 1.
Proof.
  intros Ht. unfold cubicInOut, pow3.
  destruct (JS.gtb 0.5 t) eqn:E.
  - apply gtb_true in E.
    assert (0 <= t * t <= 0.25) by nra.
    assert (0 <= t * t * t <= 0.125) by nra. lra.
  - assert (Hn : ~ 0.5 > t) by (intros H; apply gtb_true in H; congruence).
    set (s := -2.0 * t + 2.0). assert (Hs : 0 <= s <= 1) by (unfold s; lra).
    assert (0 <= s * s <= 1) by nra.
    assert (0 <= s * s * s <= 1) by nra. lra.
Qed.

Lemma cubicInOut_monotone t t' :
  0 <= t <= t' -> t' <= 1 -> cubicInOut t <= cubicInOut t'.
Proof.
  intros Ht Ht'. unfold cubicInOut, pow3.
  destruct (JS.gtb 0.5 t) eqn:E; destruct (JS.gtb 0.5 t') eqn:E'.
  - apply gtb_true in E, E'.
    assert (t * t <= t' * t') by nra.
    assert (0 <= t * t) by nra.
    assert (t * t * t <= t' * t' * t') by nra. lra.
  - apply gtb_true in E.
    assert (Hn : ~ 0.5 > t') by (intros H; apply gtb_true in H; congruence).
    assert (0 <= t * t <= 0.25) by nra.
    assert (t * t * t <= 0.125) by nra.
    set (s := -2.0 * t' + 2.0). assert (Hs : 0 <= s <= 1) by (unfold s; lra).
    assert (0 <= s * s <= 1) by nra.
    assert (s * s * s <= 1) by nra. lra.
  - apply gtb_true in E'.
    assert (Hn : ~ 0.5 > t) by (intros H; apply gtb_true in H; congruence).
    lra.
  - assert (Hn : ~ 0.5 > t) by (intros H; apply gtb_true in H; congruence).
    set (s := -2.0 * t + 2.0). set (s' := -2.0 * t' + 2.0).
    assert (Hs : 0 <= s' <= s) by (unfold s, s'; lra).
    assert (s' * s' <= s * s) by nra.
    assert (0 <= s' * s') by nra.
    assert (s' * s' * s' <= s * s * s) by nra. lra.
Qed.

(** X20.  Whatever the progress handed to the shader -- also one outside
    [0, 1] -- and whatever the random factor, the eased blend factor lies
    between 0 and 1; it grows with the progress and shrinks as the random
    factor grows, so that particles with a higher factor lag behind. *)
Theorem eased_progress_is_a_blend_factor
    (uProgress uProgress' aRandom aRandom' : R) :
  uProgress <= uProgress' -> aRandom <= aRandom' ->
  0 <= easedProgress uProgress aRandom <= 1 /\
  easedProgress uProgress aRandom <= easedProgress uProgress' aRandom /\
  easedProgress uProgress aRandom' <= easedProgress uProgress aRandom.
Proof.
  intros Hp Hr. unfold easedProgress, localProgress. split; [|split].
  - apply cubicInOut_range, clamp_range.
  - apply cubicInOut_monotone.
    + split; [apply clamp_range|]. apply clamp_monotone. lra.
    + apply clamp_range.
  - apply cubicInOut_monotone.
    + split; [apply clamp_range|]. apply clamp_monotone. lra.
    + apply clamp_range.
Qed.

Lemma eased_progress_is_a_blend_factor_witness :
  0 <= easedProgress 1.5 0.25 <= 1 /\
  easedProgress 1.5 0.25 <= easedProgress 2 0.25 /\
  easedProgress 1.5 0.75 <= easedProgress 1.5 0.25.
Proof.
  apply (eased_progress_is_a_blend_factor 1.5 2 0.25 0.75); lra.
Defined.

Lemma clamp_low v : v <= 0 -> clamp v 0.0 1.0 = 0.
Proof. intros H. by_cases_of_clamp. Qed.

Lemma clamp_high v : 1 <= v -> clamp v 0.0 1.0 = 1.
Proof. intros H. by_cases_of_clamp. Qed.

Lemma cubicInOut_0 : cubicInOut 0 = 0.
Proof.
  unfold cubicInOut. destruct (JS.gtb 0.5 0) eqn:E; [lra|].
  assert (Hn : ~ 0.5 > 0) by (intros H; apply gtb_true in H; congruence). lra.
Qed.

Lemma cubicInOut_1 : cubicInOut 1 = 1.
Proof.
  unfold cubicInOut, pow3. destruct (JS.gtb 0.5 1) eqn:E; [|lra].
  apply gtb_true in E. lra.
Qed.

(** X21.  The two ends of the blend.  With a progress of 0 or less a particle
    sits exactly at its chaos position.  With a progress of 1 or more it
    sits at the height of its target and within 0.05 of it in [x] and in
    [z], the sway of the formed tree. *)
Theorem shader_blend_ends
    (uTime uProgress aRandom : R) (aChaosPos aTargetPos : Vec3) :
  0 <= aRandom <= 1 ->
  (uProgress <= 0 ->
   newPos uTime uProgress aRandom aChaosPos aTargetPos = aChaosPos) /\
  (1 <= uProgress ->
   let p := newPos uTime uProgress aRandom aChaosPos aTargetPos in
   y p = y aTargetPos /\
   Rabs (x p - x aTargetPos) <= 0.05 /\ Rabs (z p - z aTargetPos) <= 0.05).
Proof.
  intros Hr. split; intros Hp.
  - unfold newPos, easedProgress, localProgress.
    rewrite clamp_low by lra. rewrite cubicInOut_0.
    destruct (JS.gtb uProgress 0.9) eqn:E; [apply gtb_true in E; lra|].
    destruct aChaosPos as [cx cy cz]. unfold mix3, mix. cbn [x y z].
    f_equal; lra.
  - cbv zeta. unfold newPos, easedProgress, localProgress.
    rewrite clamp_high by lra. rewrite cubicInOut_1.
    destruct (JS.gtb uProgress 0.9) eqn:E.
    + unfold mix3, mix. cbn [x y z]. split; [lra|].
      split.
      * match goal with |- Rabs (?a + sin ?u * 0.05 - ?b) <= _ =>
          replace (a + sin u * 0.05 - b) with (sin u * 0.05) by lra;
          pose proof (SIN_bound u) end.
        apply Rabs_le. lra.
      * match goal with |- Rabs (?a + cos ?u * 0.05 - ?b) <= _ =>
          replace (a + cos u * 0.05 - b) with (cos u * 0.05) by lra;
          pose proof (COS_bound u) end.
        apply Rabs_le. lra.
    + assert (Hn : ~ uProgress > 0.9) by (intros H; apply gtb_true in H; congruence).
      lra.
Qed.

Lemma shader_blend_ends_witness :
  (0 <= 0 ->
   newPos 3 0 0.5 (Samples.at_x 40) (Samples.at_x 2) = Samples.at_x 40) /\
  (1 <= 0 ->
   let p := newPos 3 0 0.5 (Samples.at_x 40) (Samples.at_x 2) in
   y p = y (Samples.at_x 2) /\
   Rabs (x p - x (Samples.at_x 2)) <= 0.05 /\
   Rabs (z p - z (Samples.at_x 2)) <= 0.05).
Proof.
  apply (shader_blend_ends 3 0 0.5 (Samples.at_x 40) (Samples.at_x 2)). lra.
Defined.

End Shader.

(** ** The extent of the particle cloud *)

Section CloudExtent.

Import Foliage.
Local Open Scope R_scope.

Lemma Rpower_unit u e : 0 < u <= 1 -> 0 <= e -> 0 < Rpower u e <= 1.
Proof.
  intros Hu He. split; [apply Rpower_pos|].
  assert (H1 : Rpower 1 e = 1).
  { unfold Rpower. rewrite ln_1, Rmult_0_r. apply exp_0. }
  pose proof (Rle_Rpower_l u 1 e He Hu). lra.
Qed.

Lemma rank_unit count i :
  (i < count)%nat -> 0 < (INR i + 0.5) / INR count <= 1.
Proof.
  intros Hi.
  assert (Hc : 0 < INR count) by (apply lt_0_INR; lia).
  assert (Hii : 0 <= INR i) by apply pos_INR.
  assert (Hic : INR i + 1 <= INR count) by (rewrite <- S_INR; apply le_INR; lia).
  assert (Hinv : 0 < / INR count) by now apply Rinv_0_lt_compat.
  assert (Hcc : INR count * / INR count = 1) by (apply Rinv_r; lra).
  unfold Rdiv. split; nra.
Qed.

Lemma trig_product_bound a b : -1 <= sin a * cos b <= 1 /\ -1 <= sin a * sin b <= 1.
Proof.
  pose proof (SIN_bound a). pose proof (COS_bound b). pose proof (SIN_bound b).
  split; split; nra.
Qed.

(** One run of the loop body puts particle [i] in its boxes and leaves the
    other particles where they are. *)
Lemma particle_box count goldenRatio i b g :
  (i < count)%nat ->
  length (chaos b) = (count * 3)%nat -> length (target b) = (count * 3)%nat ->
  length (rnd b) = count ->
  (forall k, 0 <= draws g k < 1) ->
  exists b' g',
    particle count goldenRatio i b g = Some (b', g') /\
    draws g' = draws g /\
    length (chaos b') = length (chaos b) /\
    length (target b') = length (target b) /\
    length (rnd b') = length (rnd b) /\
    Cloud.inBox b' i /\
    (forall k, k <> i -> Cloud.inBox b k -> Cloud.inBox b' k).
Proof.
  intros Hi Hlc Hlt Hlr Hd.
  assert (Hc : INR count <> 0) by (apply not_0_INR; lia).
  unfold particle, bind, Math_random, ret. cbn [draws cursor].
  rewrite (div_nonzero _ _ _ Hc). cbn [draws cursor].
  eexists. eexists. split; [reflexivity|]. cbn [draws cursor chaos target rnd].
  split; [reflexivity|]. rewrite !length_insert.
  do 3 (split; [reflexivity|]). split.
  - unfold Cloud.inBox. cbn [chaos target rnd].
    do 5 eexists.
    split; [rewrite !list_lookup_insert_ne by lia;
            apply list_lookup_insert_eq; lia|].
    split; [rewrite list_lookup_insert_ne by lia;
            apply list_lookup_insert_eq; rewrite length_insert; lia|].
    split; [apply list_lookup_insert_eq; rewrite !length_insert; lia|].
    split; [rewrite list_lookup_insert_ne by lia;
            apply list_lookup_insert_eq; rewrite length_insert; lia|].
    split; [apply list_lookup_insert_eq; lia|].
    pose proof (Hd (cursor g)) as H0.
    pose proof (Hd (S (cursor g))) as H1.
    pose proof (Hd (S (S (cursor g)))) as H2.
    pose proof (Hd (S (S (S (cursor g))))) as H3.
    pose proof (Hd (S (S (S (S (cursor g)))))) as H4.
    pose proof (Hd (S (S (S (S (S (S (cursor g)))))))) as H6.
    set (d0 := draws g (cursor g)) in *.
    set (d3 := draws g (S (S (S (cursor g))))) in *.
    set (d4 := draws g (S (S (S (S (cursor g)))))) in *.
    set (phi := acos _). set (theta := _ * 2 * PI).
    destruct (trig_product_bound phi theta) as [Hsc Hss].
    pose proof (COS_bound phi) as Hcp.
    pose proof (Rpower_unit _ 0.45 (rank_unit count i Hi) ltac:(lra)) as Hr01.
    unfold Math_pow, height. set (r01 := Rpower _ 0.45) in *.
    split; [|split; [|split; [|split]]].
    + replace (55 * d0 * sin phi * cos theta * 1.8)
        with (99 * (d0 * (sin phi * cos theta))) by lra.
      set (sc := sin phi * cos theta) in *. nra.
    + replace (55 * d0 * sin phi * sin theta + 8 + (d3 - 0.5) * 20)
        with (55 * (d0 * (sin phi * sin theta)) + 8 + (d3 - 0.5) * 20) by lra.
      set (ss := sin phi * sin theta) in *. nra.
    + replace (55 * d0 * cos phi * 1.3) with (71.5 * (d0 * cos phi)) by lra.
      nra.
    + assert (Hb : 0 <= (1 - r01) * (1 - r01) <= 1) by nra.
      set (bulge := (1 - r01) * (1 - r01)) in *.
      assert (Hsq : 0 <= r01 * r01 <= 1) by nra.
      set (sq := r01 * r01) in *.
      assert (Hlt' : 0.4 <= 0.4 + (2.0 - 0.4) * bulge <= 2) by nra.
      set (lt := 0.4 + (2.0 - 0.4) * bulge) in *.
      assert (Hv : -1.2 <= (d4 - 0.5) * lt * 1.2 <= 1.2) by nra.
      lra.
    + exact H6.
  - intros k Hk (cx & cy & cz & ty & rf & E1 & E2 & E3 & E4 & E5 & Hb).
    exists cx, cy, cz, ty, rf. cbn [chaos target rnd].
    rewrite !list_lookup_insert_ne by lia. auto 10.
Qed.

Lemma forLoop_box count goldenRatio todo : forall i b g,
  (i + todo = count)%nat ->
  length (chaos b) = (count * 3)%nat -> length (target b) = (count * 3)%nat ->
  length (rnd b) = count ->
  (forall k, 0 <= draws g k < 1) ->
  (forall k, (k < i)%nat -> Cloud.inBox b k) ->
  exists b' g',
    forLoop (particle count goldenRatio) todo i b g = Some (b', g') /\
    (forall k, (k < count)%nat -> Cloud.inBox b' k).
Proof.
  induction todo as [|todo IH]; intros i b g Hi Hlc Hlt Hlr Hd Hbox.
  - exists b, g. split; [reflexivity|]. intros k Hk. apply Hbox. lia.
  - cbn [forLoop]. unfold bind at 1.
    destruct (particle_box count goldenRatio i b g ltac:(lia) Hlc Hlt Hlr Hd)
      as (b1 & g1 & -> & Hd1 & Hlc1 & Hlt1 & Hlr1 & Hnew & Hkeep).
    apply IH; try lia; try congruence.
    + intros k. rewrite Hd1. apply Hd.
    + intros k Hk. destruct (decide (k = i)) as [->|Hne]; [exact Hnew|].
      apply Hkeep; [exact Hne|]. apply Hbox. lia.
Qed.

(** X22.  With draws of [Math.random] in [0, 1), the generator puts every
    particle's chaos position in the box [-99, 99] x [-57, 73] x
    [-71.5, 71.5], every target at a height between 10.85 and 13.6, and
    gives every particle a random factor in [0, 1). *)
Theorem foliage_cloud_extent (N : nat) (g : Random) (k : nat) :
  (forall j, 0 <= draws g j < 1) -> (k < N)%nat ->
  exists b g', generate N g = Some (b, g') /\ Cloud.inBox b k.
Proof.
  intros Hd Hk. unfold generate, bind at 1. rewrite div_nonzero by lra.
  destruct (forLoop_box N ((1 + sqrt 5) / 2) N 0
              {| chaos := replicate (N * 3) 0;
                 target := replicate (N * 3) 0;
                 rnd := replicate N 0 |} g ltac:(lia))
    as (b & g' & Hrun & Hbox);
    cbn [chaos target rnd]; rewrite ?length_replicate; try reflexivity;
    try assumption; [intros j Hj; lia|].
  exists b, g'. split; [exact Hrun|]. now apply Hbox.
Qed.

Lemma foliage_cloud_extent_witness :
  exists b g', generate 9 Samples.halves = Some (b, g') /\ Cloud.inBox b 4.
Proof.
  apply (foliage_cloud_extent 9 Samples.halves 4).
  - intros j. cbn. lra.
  - lia.
Defined.

(** X23.  With draws in [0, 1), every target of the generator lies within 16.5
    of the vertical axis, and none on it. *)
Theorem foliage_targets_within_reach (N : nat) (g : Random) (k : nat) :
  (forall j, 0 <= draws g j < 1) -> (k < N)%nat ->
  exists b g',
    generate N g = Some (b, g') /\ 0 < radialAt (target b) k <= 16.5.
Proof.
  intros Hd Hk.
  destruct (generate_run N g) as (b & g' & Hrun & _ & _ & _ & Hpolar).
  exists b, g'. split; [exact Hrun|].
  destruct (Hpolar k Hk) as [Hx Hz]. cbv zeta in *.
  pose proof (Hd (cursor g + 7 * k + 5)%nat) as Hdk.
  pose proof (rr_bounds N k _ Hdk) as [Hlo Hhi].
  pose proof (diskR_pos N k) as Hpos.
  assert (Hmax : Spec.diskR N k <= 15).
  { unfold Spec.diskR, maxRadius, Math_pow.
    pose proof (Rpower_unit _ 0.45 (rank_unit N k Hk) ltac:(lra)). lra. }
  assert (Hr0 : 0 <= Spec.rr N k (draws g (cursor g + 7 * k + 5)%nat)) by lra.
  rewrite (radialAt_polar _ _ _ _ Hr0 Hx Hz). lra.
Qed.

Lemma foliage_targets_within_reach_witness :
  exists b g',
    generate 9 Samples.halves = Some (b, g') /\
    0 < radialAt (target b) 4 <= 16.5.
Proof.
  apply (foliage_targets_within_reach 9 Samples.halves 4).
  - intros j. cbn. lra.
  - lia.
Defined.

End CloudExtent.

(** ** The star field *)

Section Stars.

Import Foliage StarField.
Local Open Scope R_scope.

(** A point written in spherical form lies at its radius from the
    origin. *)
Lemma spherical_radius r phi theta :
  0 <= r ->
  sqrt (r * sin phi * cos theta * (r * sin phi * cos theta)
        + r * sin phi * sin theta * (r * sin phi * sin theta)
        + r * cos phi * (r * cos phi)) = r.
Proof.
  intros Hr.
  pose proof (sin2_cos2 phi) as HP. pose proof (sin2_cos2 theta) as HT.
  unfold Rsqr in HP, HT.
  replace (r * sin phi * cos theta * (r * sin phi * cos theta)
           + r * sin phi * sin theta * (r * sin phi * sin theta)
           + r * cos phi * (r * cos phi))
    with (r * r * (sin phi * sin phi
                   * (sin theta * sin theta + cos theta * cos theta)
                   + cos phi * cos phi)) by ring.
  rewrite HT, Rmult_1_r, HP, Rmult_1_r. now apply sqrt_square.
Qed.

Lemma star_shell i s g :
  (i * 3 + 2 < length (positions s))%nat ->
  (i < length (sizes s))%nat -> (i < length (twinkles s))%nat ->
  (forall k, 0 <= draws g k < 1) ->
  exists s' g',
    star i s g = Some (s', g') /\ draws g' = draws g /\
    length (positions s') = length (positions s) /\
    length (sizes s') = length (sizes s) /\
    length (twinkles s') = length (twinkles s) /\
    inShell s' i /\
    (forall k, k <> i -> inShell s k -> inShell s' k).
Proof.
  intros Hlp Hls Hlt Hd.
  unfold star, bind, Math_random, ret. cbn [draws cursor].
  eexists. eexists. split; [reflexivity|].
  cbn [draws cursor positions sizes twinkles].
  split; [reflexivity|]. rewrite !length_insert.
  do 3 (split; [reflexivity|]). split.
  - unfold inShell. cbn [positions sizes twinkles].
    do 5 eexists.
    split; [rewrite !list_lookup_insert_ne by lia;
            apply list_lookup_insert_eq; lia|].
    split; [rewrite list_lookup_insert_ne by lia;
            apply list_lookup_insert_eq; rewrite length_insert; lia|].
    split; [apply list_lookup_insert_eq; rewrite !length_insert; lia|].
    split; [apply list_lookup_insert_eq; lia|].
    split; [apply list_lookup_insert_eq; lia|].
    pose proof (Hd (cursor g)) as H0.
    pose proof (Hd (S (S (S (cursor g))))) as H3.
    pose proof (Hd (S (S (S (S (cursor g)))))) as H4.
    rewrite spherical_radius by lra. lra.
  - intros k Hk (px & py & pz & sz & tw & E1 & E2 & E3 & E4 & E5 & Hb).
    exists px, py, pz, sz, tw. cbn [positions sizes twinkles].
    rewrite !list_lookup_insert_ne by lia. auto 10.
Qed.

Lemma starLoop_shell count todo : forall i s g,
  (i + todo = count)%nat ->
  length (positions s) = (count * 3)%nat ->
  length (sizes s) = count -> length (twinkles s) = count ->
  (forall k, 0 <= draws g k < 1) ->
  (forall k, (k < i)%nat -> inShell s k) ->
  exists s' g',
    starLoop todo i s g = Some (s', g') /\
    length (positions s') = (count * 3)%nat /\
    length (sizes s') = count /\ length (twinkles s') = count /\
    (forall k, (k < count)%nat -> inShell s' k).
Proof.
  induction todo as [|todo IH]; intros i s g Hi Hlp Hls Hlt Hd Hin.
  - exists s, g. split; [reflexivity|]. do 3 (split; [assumption|]).
    intros k Hk. apply Hin. lia.
  - cbn [starLoop]. unfold bind at 1.
    destruct (star_shell i s g ltac:(lia) ltac:(lia) ltac:(lia) Hd)
      as (s1 & g1 & -> & Hd1 & Hlp1 & Hls1 & Hlt1 & Hnew & Hkeep).
    apply IH; try lia; try congruence.
    + intros k. rewrite Hd1. apply Hd.
    + intros k Hk. destruct (decide (k = i)) as [->|Hne]; [exact Hnew|].
      apply Hkeep; [exact Hne|]. apply Hin. lia.
Qed.

(** X24.  With draws of [Math.random] in [0, 1), the star field has three
    numbers of position, a size and a twinkle phase for each of its
    [count] stars, and every star lies between 40 and 100 from the origin
    -- behind everything the camera, which orbits at a distance of 30 at
    most, can see -- with a size in [0.5, 2.5) and a phase in [0, 1). *)
Theorem stars_lie_in_a_far_shell (count : nat) (g : Random) :
  (forall k, 0 <= draws g k < 1) ->
  exists s g',
    generate count g = Some (s, g') /\
    length (positions s) = (count * 3)%nat /\
    length (sizes s) = count /\ length (twinkles s) = count /\
    (forall k, (k < count)%nat -> inShell s k).
Proof.
  intros Hd. unfold generate.
  apply (starLoop_shell count count 0); cbn [positions sizes twinkles];
    rewrite ?length_replicate; try reflexivity; try assumption.
  intros k Hk. lia.
Qed.

Lemma stars_lie_in_a_far_shell_witness :
  exists s g',
    generate 5 Samples.halves = Some (s, g') /\
    length (positions s) = (5 * 3)%nat /\
    length (sizes s) = 5%nat /\ length (twinkles s) = 5%nat /\
    (forall k, (k < 5)%nat -> inShell s k).
Proof.
  apply (stars_lie_in_a_far_shell 5 Samples.halves).
  intros k. cbn. lra.
Defined.

End Stars.

(** ** The move of one photo *)

Section PhotoMove.

Import PhotoLayout PolaroidItem.
Local Open Scope R_scope.




End PhotoMove.

(** ** The petals *)

Section PetalProofs.

Import Petals.
Local Open Scope R_scope.

Lemma leb_true a b : leb a b = true <-> a <= b.
Proof.
  unfold leb. destruct (Rle_dec a b); split; intros; try discriminate;
    try reflexivity; try assumption; contradiction.
Qed.

Lemma totalW_foldr puffCenters acc :
  foldl (fun totalW p => totalW + w p) acc puffCenters
  = acc + foldr (fun p s => w p + s) 0 puffCenters.
Proof.
  revert acc. induction puffCenters as [|p ps IH]; intros acc; cbn.
  - lra.
  - rewrite IH. lra.
Qed.

Lemma totalW_all puffCenters :
  totalW puffCenters = weightBefore puffCenters (length puffCenters).
Proof.
  unfold totalW, weightBefore. rewrite totalW_foldr, firstn_all. lra.
Qed.

Lemma weightBefore_S ps k p :
  ps !! k = Some p -> weightBefore ps (S k) = weightBefore ps k + w p.
Proof.
  unfold weightBefore. revert k. induction ps as [|q ps IH]; intros k Hk.
  - discriminate.
  - destruct k as [|k]; cbn in *.
    + injection Hk as ->. rewrite take_0. cbn. lra.
    + rewrite (IH k Hk). lra.
Qed.

Lemma weightBefore_nonneg ps k :
  Forall (fun p => 0 < w p) ps -> 0 <= weightBefore ps k.
Proof.
  intros Hall. unfold weightBefore. revert k.
  induction Hall as [|p ps Hp _ IH]; intros k.
  - rewrite take_nil. cbn. lra.
  - destruct k as [|k]; cbn; [lra|]. specialize (IH k). lra.
Qed.

(** The scan from puff [i] on, the weights before [i] being already taken
    off [pick]: it stops at the first puff that brings what is left to 0
    or below. *)
Lemma scan_stops all pick : forall rest i chosen,
  all <> [] -> drop i all = rest ->
  (forall j, (j < i)%nat -> weightBefore all (S j) < pick) ->
  pick <= weightBefore all (length all) ->
  exists k p,
    scan rest (pick - weightBefore all i) chosen = Some p /\
    all !! k = Some p /\
    pick <= weightBefore all (S k) /\
    (forall j, (j < k)%nat -> weightBefore all (S j) < pick).
Proof.
  induction rest as [|p rest IH]; intros i chosen Hne Hdrop Hbefore Htot.
  - exfalso.
    assert (Hi : (length all <= i)%nat).
    { destruct (decide (length all <= i)%nat) as [|Hn]; [assumption|].
      assert (Hl : length (drop i all) = 0%nat) by now rewrite Hdrop.
      rewrite length_drop in Hl. lia. }
    destruct (length all) as [|n] eqn:El.
    + apply length_zero_iff_nil in El. contradiction.
    + specialize (Hbefore n ltac:(lia)). lra.
  - assert (Hip : all !! i = Some p).
    { rewrite <- (Nat.add_0_r i), <- lookup_drop, Hdrop. reflexivity. }
    assert (Hdrop' : drop (S i) all = rest).
    { replace (S i) with (i + 1)%nat by lia.
      rewrite <- drop_drop, Hdrop. reflexivity. }
    cbn [scan].
    replace (pick - weightBefore all i - w p)
      with (pick - weightBefore all (S i))
      by (rewrite (weightBefore_S all i p Hip); lra).
    destruct (leb (pick - weightBefore all (S i)) 0) eqn:E.
    + apply leb_true in E. exists i, p. split; [reflexivity|].
      split; [exact Hip|]. split; [lra|exact Hbefore].
    + assert (Hn : ~ pick - weightBefore all (S i) <= 0).
      { intros H. apply leb_true in H. congruence. }
      apply IH; [exact Hne|exact Hdrop'| |exact Htot].
      intros j Hj. destruct (decide (j = i)) as [->|Hji]; [lra|].
      apply Hbefore. lia.
Qed.

(** X26.  The pick is weighted: for puffs of positive weight and a draw [d] in
    [0, 1), the puff picked is the one whose stretch of the total weight
    the scaled draw falls in -- the first puff [k] with
    [d * totalW <= w_0 + ... + w_k]. *)
Theorem puff_pick_is_weighted (puffCenters : list Puff) (d : R) :
  puffCenters <> [] -> Forall (fun p => 0 < w p) puffCenters -> 0 <= d < 1 ->
  exists k p,
    pickPuff puffCenters d = Some p /\ puffCenters !! k = Some p /\
    weightBefore puffCenters k <= d * totalW puffCenters
      <= weightBefore puffCenters (S k) /\
    (forall j, (j < k)%nat ->
       weightBefore puffCenters (S j) < d * totalW puffCenters).
Proof.
  intros Hne Hpos Hd. unfold pickPuff. cbv zeta.
  pose proof (weightBefore_nonneg puffCenters (length puffCenters) Hpos) as Ht.
  rewrite <- totalW_all in Ht.
  set (pick := d * totalW puffCenters) in *.
  assert (Hpick : 0 <= pick <= totalW puffCenters) by (unfold pick; nra).
  destruct (scan_stops puffCenters pick puffCenters 0 (puffCenters !! 0%nat)
              Hne eq_refl ltac:(intros; lia)
              ltac:(rewrite <- totalW_all; lra))
    as (k & p & Hscan & Hk & Hhi & Hlo).
  replace (pick - weightBefore puffCenters 0) with pick in Hscan
    by (unfold weightBefore; rewrite take_0; cbn; lra).
  exists k, p. split; [exact Hscan|]. split; [exact Hk|].
  split; [|exact Hlo]. split; [|exact Hhi].
  destruct k as [|k].
  - unfold weightBefore. rewrite take_0. cbn. lra.
  - specialize (Hlo k ltac:(lia)). lra.
Qed.

Lemma puff_pick_is_weighted_witness :
  exists k p,
    pickPuff twoPuffs 0.5 = Some p /\ twoPuffs !! k = Some p /\
    weightBefore twoPuffs k <= 0.5 * totalW twoPuffs
      <= weightBefore twoPuffs (S k) /\
    (forall j, (j < k)%nat -> weightBefore twoPuffs (S j) < 0.5 * totalW twoPuffs).
Proof.
  apply (puff_pick_is_weighted twoPuffs 0.5).
  - discriminate.
  - unfold twoPuffs. apply Forall_cons. split; [cbn; lra|].
    apply Forall_cons. split; [cbn; lra|]. apply Forall_nil_2.
  - lra.
Defined.

Lemma mod1_nonneg a : 0 <= a -> 0 <= mod1 a < 1.
Proof.
  intros Ha. unfold mod1. destruct (Rle_dec 0 a) as [_|Hn]; [|contradiction].
  destruct (base_fp a) as [H0 H1]. lra.
Qed.

(** X27.  A petal stays near its base.  On a formed tree it sways within 0.05
    of the base in [x] and in [z] and hangs [0.01 * drift] below it; in
    chaos, at any time [t >= 0], it stays within 0.85 of the base in [x]
    and in [z], and between 2.3 below and 0.3 above the height it hangs
    at. *)
Theorem petal_stays_near_its_base
    (mode : TreeMode) (t : R) (i : nat) (p : Petal) :
  0 <= t ->
  let q := position mode t i p in
  let scatter := if TreeMode_eqb mode CHAOS then 0.8 else 0 in
  Rabs (x q - x (base p)) <= 0.05 + scatter /\
  Rabs (z q - z (base p)) <= 0.05 + scatter /\
  match mode with
  | FORMED => y q = y (base p) - 0.01 * drift p
  | CHAOS =>
      y (base p) - 0.01 * drift p - 2.3 < y q
        <= y (base p) - 0.01 * drift p + 0.3
  end.
Proof.
  intros Ht. cbv zeta. unfold position. cbn [x y z].
  pose proof (SIN_bound (t * drift p + phase p)) as Hs.
  pose proof (COS_bound (t * drift p + phase p)) as Hc.
  pose proof (SIN_bound (t + INR i)) as Hs'.
  pose proof (COS_bound (t + INR i)) as Hc'.
  pose proof (COS_bound (t + INR i * 0.5)) as Hc''.
  destruct mode; cbn [TreeMode_eqb].
  - assert (Ha : 0 <= t * 0.15 + INR i * 0.002).
    { pose proof (pos_INR i). lra. }
    pose proof (mod1_nonneg _ Ha) as Hm.
    set (m := mod1 _) in *.
    split; [apply Rabs_le; lra|]. split; [apply Rabs_le; lra|]. lra.
  - split; [apply Rabs_le; lra|]. split; [apply Rabs_le; lra|]. lra.
Qed.

Lemma petal_stays_near_its_base_witness :
  let q := position CHAOS 7 3 petal in
  let scatter := if TreeMode_eqb CHAOS CHAOS then 0.8 else 0 in
  Rabs (x q - x (base petal)) <= 0.05 + scatter /\
  Rabs (z q - z (base petal)) <= 0.05 + scatter /\
  y (base petal) - 0.01 * drift petal - 2.3 < y q
    <= y (base petal) - 0.01 * drift petal + 0.3.
Proof.
  apply (petal_stays_near_its_base CHAOS 7 3 petal). lra.
Defined.

End PetalProofs.

(** ** The soft boundary of the petals *)

Section Boundary.

Import PetalBoundary.
Local Open Scope R_scope.

(** X28.  The soft boundary clamp brings a petal that strays beyond 1.05 times
    the crown radius back onto that circle, along its own direction, and
    leaves the petals inside alone: the clamped place is the old one
    scaled by a factor between 0 and 1 (positive when the radius is), so
    it lies on the same side of the axis; afterwards no petal of the top
    and main layers is further than [radius * 1.05] from the axis. *)
Theorem soft_clamp_bounds_the_crown (radius x z : R) :
  0 <= radius ->
  let '(x', z') := softClamp radius x z in
  sqrt (x' * x' + z' * z') <= radius * 1.05 /\
  (exists s, 0 <= s <= 1 /\ (0 < radius -> 0 < s) /\
             x' = x * s /\ z' = z * s) /\
  (sqrt (x * x + z * z) <= radius * 1.05 -> x' = x /\ z' = z) /\
  (radius * 1.05 < sqrt (x * x + z * z) ->
   sqrt (x' * x' + z' * z') = radius * 1.05).
Proof.
  intros Hr. unfold softClamp. cbv zeta.
  set (rr := sqrt (x * x + z * z)).
  destruct (JS.gtb rr (radius * 1.05)) eqn:E.
  - apply gtb_true in E.
    assert (Hrr : 0 < rr) by lra.
    assert (Hinv : 0 < / rr) by now apply Rinv_0_lt_compat.
    assert (Hs : 0 <= radius * 1.05 / rr).
    { apply Rmult_le_pos; [lra|]. left. exact Hinv. }
    assert (Hs1 : radius * 1.05 / rr <= 1).
    { assert (Hm : radius * 1.05 / rr * rr = radius * 1.05) by (field; lra).
      nra. }
    assert (Hspos : 0 < radius -> 0 < radius * 1.05 / rr).
    { intros Hpos. apply Rmult_lt_0_compat; [lra|exact Hinv]. }
    assert (Hnorm : sqrt (x * (radius * 1.05 / rr) * (x * (radius * 1.05 / rr))
                          + z * (radius * 1.05 / rr) * (z * (radius * 1.05 / rr)))
                    = radius * 1.05).
    { replace (x * (radius * 1.05 / rr) * (x * (radius * 1.05 / rr))
               + z * (radius * 1.05 / rr) * (z * (radius * 1.05 / rr)))
        with ((radius * 1.05 / rr) * (radius * 1.05 / rr) * (x * x + z * z))
        by ring.
      rewrite sqrt_mult; [|nra|].
      - rewrite sqrt_square by exact Hs. fold rr. field. lra.
      - pose proof (Rle_0_sqr x). pose proof (Rle_0_sqr z).
        unfold Rsqr in *. lra. }
    split; [rewrite Hnorm; lra|]. split.
    { exists (radius * 1.05 / rr).
      split; [split; assumption|]. split; [exact Hspos|].
      split; reflexivity. }
    split; [intros H; lra|intros _; exact Hnorm].
  - assert (Hn : ~ rr > radius * 1.05).
    { intros H. apply gtb_true in H. congruence. }
    split; [fold rr; lra|]. split.
    { exists 1. split; [lra|]. split; [intros _; lra|]. split; ring. }
    split; [intros _; split; reflexivity|intros H; lra].
Qed.

Lemma soft_clamp_bounds_the_crown_witness :
  let '(x', z') := softClamp 2.6 3 4 in
  sqrt (x' * x' + z' * z') <= 2.6 * 1.05 /\
  (exists s, 0 <= s <= 1 /\ (0 < 2.6 -> 0 < s) /\
             x' = 3 * s /\ z' = 4 * s) /\
  (sqrt (3 * 3 + 4 * 4) <= 2.6 * 1.05 -> x' = 3 /\ z' = 4) /\
  (2.6 * 1.05 < sqrt (3 * 3 + 4 * 4) ->
   sqrt (x' * x' + z' * z') = 2.6 * 1.05).
Proof.
  apply (soft_clamp_bounds_the_crown 2.6 3 4). lra.
Defined.

End Boundary.
